(** * Literature-Agent: deduplication ledger, title normalisation,
      reflection controller and retrieval loop.

    A shallow embedding of [src/dedupe/ledger.py], [src/dedupe/normalise.py],
    [src/agents/reflection.py] and the orchestration parts of
    [src/agents/pipeline.py].  The Python standard-library pieces the ledger
    relies on ([csv.DictWriter], [csv.DictReader] over a file opened in
    universal-newline text mode, [pathlib.Path.with_suffix], [os.replace]) are
    modelled as the CPython implementation executes them. *)

From Stdlib Require Import ZArith QArith Lia Ascii.
From stdpp Require Import base list strings pretty.

Open Scope list_scope.

(* ------------------------------------------------------------------ *)
(** ** Python values, exceptions and results *)

(** The Python objects that end up in ledger rows: [None], [str], [int]. *)
Inductive pyval :=
| PNone
| PStr (s : string)
| PInt (z : Z).

#[global] Instance pyval_eq_dec : EqDecision pyval.
Proof. solve_decision. Defined.

(** Python truthiness, as used by [if canonical_id:]. *)
Definition truthy (v : pyval) : bool :=
  match v with
  | PNone => false
  | PStr s => negb (bool_decide (s = ""%string))
  | PInt z => negb (Z.eqb z 0)
  end.

Inductive exn :=
| ValueError
| TypeError
| OSError
| UnicodeDecodeError
| CsvError
| GenerationError
| JSONDecodeError
| RecursionError
| GraphRecursionError.

Inductive res (A : Type) :=
| Ok (a : A)
| Err (e : exn).
Arguments Ok {A} a.
Arguments Err {A} e.

Definition res_bind {A B} (m : res A) (k : A -> res B) : res B :=
  match m with Ok a => k a | Err e => Err e end.

Notation "'let?' x := m 'in' k" := (res_bind m (fun x => k))
  (at level 200, x name, m at level 100, k at level 200).

(* ------------------------------------------------------------------ *)
(** ** Characters and text *)

Definition text := list ascii.

Definition CR : ascii := "013"%char.
Definition LF : ascii := "010"%char.
Definition QUOTE : ascii := "034"%char.
Definition COMMA : ascii := ","%char.

Definition is_cr (c : ascii) : bool := bool_decide (c = CR).
Definition is_lf (c : ascii) : bool := bool_decide (c = LF).
Definition is_quote (c : ascii) : bool := bool_decide (c = QUOTE).
Definition is_comma (c : ascii) : bool := bool_decide (c = COMMA).

Definition txt (s : string) : text := String.list_ascii_of_string s.
Definition str (t : text) : string := String.string_of_list_ascii t.

(** [sys.int_max_str_digits]: [str] of an int with more than 4300 decimal
    digits (the sign aside) raises [ValueError]. *)
Definition int_str_ok (z : Z) : bool := bool_decide (Z.abs z < 10 ^ 4300)%Z.

(** Whether [str(v)] returns. *)
Definition str_ok (v : pyval) : bool :=
  match v with
  | PInt z => int_str_ok z
  | _ => true
  end.

(** [str(v)] as [csv.writer] renders a cell: [None] is the empty string. *)
Definition render (v : pyval) : text :=
  match v with
  | PNone => []
  | PStr s => txt s
  | PInt z => txt (pretty z)
  end.

(* ------------------------------------------------------------------ *)
(** ** Rows of the ledger (Python dicts) *)

(** A row dict: its string keys in insertion order, and the value
    [DictReader] stores under its [restkey] ([None]) when a record has more
    cells than the header. *)
Record row := mkRow {
  cells : list (string * pyval);
  rest : option (list string)
}.

Fixpoint dict_get (k : string) (d : list (string * pyval)) (dflt : pyval) : pyval :=
  match d with
  | [] => dflt
  | (k', v) :: d' => if bool_decide (k = k') then v else dict_get k d' dflt
  end.

(** [d[k] = v]: overwrite in place, or append a new key. *)
Fixpoint dict_set (k : string) (v : pyval) (d : list (string * pyval))
  : list (string * pyval) :=
  match d with
  | [] => [(k, v)]
  | (k', v') :: d' =>
      if bool_decide (k = k') then (k', v) :: d' else (k', v') :: dict_set k v d'
  end.

Definition row_get (k : string) (r : row) (dflt : pyval) : pyval :=
  dict_get k (cells r) dflt.

Definition FIELDNAMES : list string :=
  ["canonical_id"; "source"; "arxiv_id"; "doi"; "title"; "authors"; "venue";
   "year"; "url"; "discovered_date"; "processed_date"; "model_name";
   "abstract_rewrite"; "problem_solved"; "linkedin_post"]%string.

(* ------------------------------------------------------------------ *)
(** ** csv.writer (excel dialect, QUOTE_MINIMAL, lineterminator CR LF) *)

Module CsvWrite.

Definition needs_quote (f : text) : bool :=
  existsb (fun c => is_comma c || is_quote c || is_cr c || is_lf c) f.

Fixpoint escape (f : text) : text :=
  match f with
  | [] => []
  | c :: f' => if is_quote c then QUOTE :: QUOTE :: escape f' else c :: escape f'
  end.

Definition write_field (f : text) : text :=
  if needs_quote f then QUOTE :: escape f ++ [QUOTE] else f.

Fixpoint join_fields (fs : list text) : text :=
  match fs with
  | [] => []
  | [f] => write_field f
  | f :: fs' => write_field f ++ COMMA :: join_fields fs'
  end.

(** [writerow]: a record made of one empty cell is written as a quoted
    empty string, so that it is not read back as a blank line. *)
Definition write_row_body (fs : list text) : text :=
  if bool_decide (fs = [[]]) then [QUOTE; QUOTE] else join_fields fs.

Definition write_row (fs : list text) : text := write_row_body fs ++ [CR; LF].

End CsvWrite.

(** [DictWriter._dict_to_list] with [extrasaction="raise"], [restval=""]. *)
Definition dict_to_list (r : row) : res (list pyval) :=
  match rest r with
  | Some _ => Err ValueError
  | None =>
      if existsb (fun k => negb (bool_decide (k ∈ FIELDNAMES))) (map fst (cells r))
      then Err ValueError
      else Ok (map (fun k => row_get k r (PStr "")) FIELDNAMES)
  end.

(** [writer.writeheader(); writer.writerows(rows)]: the text written, and
    whether a row raised (the text written before it stays in the file).
    [writerow] renders all cells of a row before it writes any of it, so a
    cell whose [str] raises leaves nothing of its row in the file. *)
Fixpoint write_rows (rows : list row) : res unit * text :=
  match rows with
  | [] => (Ok tt, [])
  | r :: rows' =>
      match dict_to_list r with
      | Err e => (Err e, [])
      | Ok vs =>
          if forallb str_ok vs then
            let '(st, t) := write_rows rows' in
            (st, CsvWrite.write_row (map render vs) ++ t)
          else (Err ValueError, [])
      end
  end.

Definition serialize (rows : list row) : res unit * text :=
  let '(st, t) := write_rows rows in
  (st, CsvWrite.write_row (map txt FIELDNAMES) ++ t).

(* ------------------------------------------------------------------ *)
(** ** Reading the file: universal newlines, then csv.reader *)

(** [open(path, "r")] with [newline=None]: CR LF and lone CR become LF. *)
Fixpoint unl (s : text) : text :=
  match s with
  | [] => []
  | c :: s' =>
      if is_cr c then
        LF :: match s' with
              | d :: s'' => if is_lf d then unl s'' else unl s'
              | [] => []
              end
      else c :: unl s'
  end.

Module CsvRead.

(** The reader is fed the characters of each line (lines end after LF),
    followed by an end-of-line event, as [Reader_iternext] does. *)
Inductive token := Ch (c : ascii) | EOL.

Fixpoint tok (s : text) : list token :=
  match s with
  | [] => []
  | c :: s' => if is_lf c then Ch c :: EOL :: tok s' else Ch c :: tok s'
  end.

Definition tokens_of (s : text) : list token :=
  tok s ++ (match last s with
            | Some c => if is_lf c then [] else [EOL]
            | None => []
            end).

Inductive pstate :=
| START_RECORD | START_FIELD | IN_FIELD | IN_QUOTED_FIELD
| QUOTE_IN_QUOTED_FIELD | EAT_CRNL.

Record rdr := mkRdr { st : pstate; field : text; fields : list text }.

Definition rdr0 : rdr := mkRdr START_RECORD [] [].

(** [csv.field_size_limit()] default. *)
Definition field_limit : N := 131072.

Definition add_char (r : rdr) (c : ascii) (s : pstate) : res rdr :=
  if bool_decide (field_limit <= N.of_nat (length (field r)))%N then Err CsvError
  else Ok (mkRdr s (field r ++ [c]) (fields r)).

Definition save_field (r : rdr) (s : pstate) : rdr :=
  mkRdr s [] (fields r ++ [field r]).

Definition is_nl (t : token) : bool :=
  match t with Ch c => is_cr c || is_lf c | EOL => false end.

Definition end_state (t : token) : pstate :=
  match t with EOL => START_RECORD | Ch _ => EAT_CRNL end.

Definition start_field (r : rdr) (t : token) : res rdr :=
  match t with
  | EOL => Ok (save_field r START_RECORD)
  | Ch c =>
      if is_cr c || is_lf c then Ok (save_field r EAT_CRNL)
      else if is_quote c then Ok (mkRdr IN_QUOTED_FIELD (field r) (fields r))
      else if is_comma c then Ok (save_field r START_FIELD)
      else add_char r c IN_FIELD
  end.

(** [parse_process_char] of [_csv.c], excel dialect, [strict=False]. *)
Definition process (r : rdr) (t : token) : res rdr :=
  match st r with
  | START_RECORD =>
      match t with
      | EOL => Ok r
      | Ch c =>
          if is_cr c || is_lf c then Ok (mkRdr EAT_CRNL (field r) (fields r))
          else start_field r t
      end
  | START_FIELD => start_field r t
  | IN_FIELD =>
      match t with
      | EOL => Ok (save_field r START_RECORD)
      | Ch c =>
          if is_cr c || is_lf c then Ok (save_field r EAT_CRNL)
          else if is_comma c then Ok (save_field r START_FIELD)
          else add_char r c IN_FIELD
      end
  | IN_QUOTED_FIELD =>
      match t with
      | EOL => Ok r
      | Ch c =>
          if is_quote c then Ok (mkRdr QUOTE_IN_QUOTED_FIELD (field r) (fields r))
          else add_char r c IN_QUOTED_FIELD
      end
  | QUOTE_IN_QUOTED_FIELD =>
      match t with
      | EOL => Ok (save_field r START_RECORD)
      | Ch c =>
          if is_quote c then add_char r c IN_QUOTED_FIELD
          else if is_comma c then Ok (save_field r START_FIELD)
          else if is_cr c || is_lf c then Ok (save_field r EAT_CRNL)
          else add_char r c IN_FIELD
      end
  | EAT_CRNL =>
      match t with
      | EOL => Ok (mkRdr START_RECORD (field r) (fields r))
      | Ch c => if is_cr c || is_lf c then Ok r else Err CsvError
      end
  end.

Definition in_quoted (s : pstate) : bool :=
  match s with IN_QUOTED_FIELD => true | _ => false end.

(** At end of input a pending field (or an open quoted field) is saved. *)
Definition eof_records (r : rdr) : list (list text) :=
  if negb (bool_decide (field r = [])) || in_quoted (st r)
  then [fields r ++ [field r]] else [].

(** Iterating the reader: a record is returned each time an end-of-line
    event leaves the parser in [START_RECORD]; the parser is then reset. *)
Fixpoint read_tokens (r : rdr) (ts : list token) : res (list (list text)) :=
  match ts with
  | [] => Ok (eof_records r)
  | t :: ts' =>
      let? r' := process r t in
      match t, st r' with
      | EOL, START_RECORD =>
          let? recs := read_tokens rdr0 ts' in Ok (fields r' :: recs)
      | _, _ => read_tokens r' ts'
      end
  end.

Definition read_csv (s : text) : res (list (list text)) :=
  read_tokens rdr0 (tokens_of (unl s)).

End CsvRead.

(** [csv.DictReader]: the first record is the header (no header: no rows),
    blank records are skipped, short records are padded with [restval=None],
    long ones keep their extra cells under [restkey]. *)
Definition mk_row (hdr : list string) (r : list text) : row :=
  let d := fold_left (fun d kv => dict_set kv.1 (PStr (str kv.2)) d)
                     (zip hdr r) [] in
  let d := fold_left (fun d k => dict_set k PNone d) (drop (length r) hdr) d in
  mkRow d (if bool_decide (length hdr < length r)
           then Some (map str (drop (length hdr) r)) else None).

Definition dict_reader (recs : list (list text)) : list row :=
  match recs with
  | [] => []
  | hdr :: body =>
      map (mk_row (map str hdr)) (filter (fun r => negb (bool_decide (r = []))) body)
  end.

(* ------------------------------------------------------------------ *)
(** ** Paths and the file system *)

Record path := mkPath { pdir : list string; pname : string }.

#[global] Instance path_eq_dec : EqDecision path.
Proof. solve_decision. Defined.

Fixpoint last_dot_go (i : nat) (l : text) (acc : option nat) : option nat :=
  match l with
  | [] => acc
  | c :: l' => last_dot_go (S i) l' (if bool_decide (c = "."%char) then Some i else acc)
  end.

(** [PurePath.suffix]: [i = name.rfind(".")], a suffix when [0 < i < len(name) - 1]. *)
Definition suffix_start (name : text) : option nat :=
  match last_dot_go 0 name None with
  | Some i => if bool_decide (0 < i < length name - 1) then Some i else None
  | None => None
  end.

(** [PurePath.with_suffix]. *)
Definition with_suffix (p : path) (sfx : string) : res path :=
  let name := txt (pname p) in
  if bool_decide (name = []) then Err ValueError
  else
    let stem := match suffix_start name with Some i => take i name | None => name end in
    Ok (mkPath (pdir p) (str (stem ++ txt sfx))).

(** A file holds decoded text, or bytes that are not valid UTF-8. *)
Inductive file := FText (t : text) | FUndecodable.

Definition fs := path -> option file.

Definition fs_upd (m : fs) (p : path) (f : option file) : fs :=
  fun q => if bool_decide (q = p) then f else m q.

(* ------------------------------------------------------------------ *)
(** ** PaperLedger *)

Record ledger := mkLedger {
  ledger_path : path;
  processed_ids : list pyval;   (* the Python set, by membership *)
  ledger_rows : list row
}.

Definition is_processed (l : ledger) (canonical_id : string) : bool :=
  bool_decide (PStr canonical_id ∈ processed_ids l).

(** [_load]: missing file: nothing; otherwise every row is kept and its
    [canonical_id] recorded when truthy; read or parse errors propagate. *)
Definition load_rows (rows : list row) : list pyval :=
  fold_left (fun ids r =>
               let cid := row_get "canonical_id" r PNone in
               if truthy cid then ids ++ [cid] else ids) rows [].

Definition load (p : path) (m : fs) : res (list pyval * list row) :=
  match m p with
  | None => Ok ([], [])
  | Some FUndecodable => Err UnicodeDecodeError
  | Some (FText t) =>
      let? recs := CsvRead.read_csv t in
      let rows := dict_reader recs in
      Ok (load_rows rows, rows)
  end.

(** [PaperLedger.__init__]: [mkdir_ok] is the outcome of
    [ledger_path.parent.mkdir(parents=True, exist_ok=True)]. *)
Definition init (p : path) (mkdir_ok : bool) (m : fs) : res ledger :=
  if negb mkdir_ok then Err OSError
  else
    let? lr := load p m in
    Ok (mkLedger p lr.1 lr.2).

(** [add_entry]: [now] is [datetime.now().isoformat()], read once. *)
Definition entry_of (paper_dict : list (string * pyval)) (model_name : string)
    (abstract_rewrite problem_solved linkedin_post : pyval) (now : string) : row :=
  mkRow
    [("canonical_id", dict_get "canonical_id" paper_dict PNone);
     ("source", dict_get "source" paper_dict PNone);
     ("arxiv_id", dict_get "arxiv_id" paper_dict (PStr ""));
     ("doi", dict_get "doi" paper_dict (PStr ""));
     ("title", dict_get "title" paper_dict PNone);
     ("authors", dict_get "authors" paper_dict (PStr ""));
     ("venue", dict_get "venue" paper_dict (PStr ""));
     ("year", dict_get "year" paper_dict (PStr ""));
     ("url", dict_get "url" paper_dict (PStr ""));
     ("discovered_date", PStr now);
     ("processed_date", PStr now);
     ("model_name", PStr model_name);
     ("abstract_rewrite", abstract_rewrite);
     ("problem_solved", problem_solved);
     ("linkedin_post", linkedin_post)]%string
    None.

Definition add_entry (l : ledger) (paper_dict : list (string * pyval))
    (model_name : string) (abstract_rewrite problem_solved linkedin_post : pyval)
    (now : string) : ledger :=
  let e := entry_of paper_dict model_name abstract_rewrite problem_solved linkedin_post now in
  mkLedger (ledger_path l)
    (processed_ids l ++ [row_get "canonical_id" e PNone])
    (ledger_rows l ++ [e]).

(** Where [save] can fail: opening the temporary file, an I/O error after
    [k] characters reached it, or the final [replace]. *)
Inductive fault := NoFault | FailOpen | FailWrite (k : nat) | FailReplace.

(** [save]: write the table to [ledger_path.with_suffix(".tmp")], then
    [temp_path.replace(ledger_path)]. *)
Definition save (l : ledger) (flt : fault) (m : fs) : res unit * fs :=
  match with_suffix (ledger_path l) ".tmp" with
  | Err e => (Err e, m)
  | Ok tmp =>
      match flt with
      | FailOpen => (Err OSError, m)
      | _ =>
          let '(wst, content) := serialize (ledger_rows l) in
          match flt with
          | FailWrite k => (Err OSError, fs_upd m tmp (Some (FText (take k content))))
          | _ =>
              match wst with
              | Err e => (Err e, fs_upd m tmp (Some (FText content)))
              | Ok _ =>
                  match flt with
                  | FailReplace => (Err OSError, fs_upd m tmp (Some (FText content)))
                  | _ => (Ok tt, fs_upd (fs_upd m tmp None) (ledger_path l)
                                        (Some (FText content)))
                  end
              end
          end
      end
  end.

(** [get_new_papers_count]. *)
Definition get_new_papers_count (l : ledger) : nat :=
  length (filter (fun r => bool_decide (row_get "processed_date" r PNone =
                                        row_get "discovered_date" r PNone))
                 (ledger_rows l)).

(* ------------------------------------------------------------------ *)
(** ** normalise.py: [normalise_title]

    A Python [str] is a list of code points. The Unicode tables the code
    consults are parameters: [nfd] is [unicodedata.normalize("NFD", .)],
    [is_Mn c] is [unicodedata.category(c) == "Mn"], [lower] is [str.lower]
    and [is_space] is [str.isspace], which is also what the [\s] class of
    [re] and the argument-less [str.strip] test. *)

Module Normalise.
Local Open Scope N_scope.

Definition ascii_space (c : N) : bool := ((9 <=? c) && (c <=? 13)) || ((28 <=? c) && (c <=? 32)).
Definition ascii_lower (c : N) : N := if (65 <=? c) && (c <=? 90) then c + 32 else c.
Definition is_az (c : N) : bool := (97 <=? c) && (c <=? 122).
Definition is_09 (c : N) : bool := (48 <=? c) && (c <=? 57).

(** ASCII characters other than letters, digits and whitespace. *)
Definition ascii_punct (c : N) : bool :=
  (c <? 128) && negb (is_az (ascii_lower c) || is_09 c || ascii_space c).

Section Tables.
Variable nfd : list N -> list N.
Variable is_Mn : N -> bool.
Variable lower : list N -> list N.
Variable is_space : N -> bool.

(** Characters not matched by [[^a-z0-9\s]]. *)
Definition keep (c : N) : bool := is_az c || is_09 c || is_space c.

(** [re.sub(r"\s+", " ", .)]: [in_run] is set inside a run of whitespace. *)
Fixpoint collapse_go (in_run : bool) (l : list N) : list N :=
  match l with
  | [] => []
  | c :: l' =>
      if is_space c then (if in_run then collapse_go true l' else 32 :: collapse_go true l')
      else c :: collapse_go false l'
  end.

Definition collapse (l : list N) : list N := collapse_go false l.

Fixpoint lstrip (l : list N) : list N :=
  match l with
  | [] => []
  | c :: l' => if is_space c then lstrip l' else l
  end.

Fixpoint rstrip (l : list N) : list N :=
  match l with
  | [] => []
  | c :: l' =>
      match rstrip l' with
      | [] => if is_space c then [] else [c]
      | r => c :: r
      end
  end.

(** [str.strip()]. *)
Definition strip (l : list N) : list N := rstrip (lstrip l).

Definition normalise_title (title : list N) : list N :=
  match title with
  | [] => []
  | _ =>
      let t := nfd title in
      let t := List.filter (fun c => negb (is_Mn c)) t in
      let t := lower t in
      let t := List.filter keep t in
      let t := collapse t in
      strip t
  end.

(** The characters that survive the first four steps. *)
Definition kept (t : list N) : list N :=
  List.filter keep (lower (List.filter (fun c => negb (is_Mn c)) (nfd t))).

End Tables.

(** Facts of Python's Unicode tables the proofs rely on. [kept] maps a
    concatenation to a concatenation: NFD decomposes character by character
    and its reordering only moves combining marks, which never reach
    [a-z0-9\s]; [str.lower] maps character by character except for the
    final sigma, whose images are not kept either. ASCII characters are
    their own NFD, are not marks, lowercase as ASCII, and the ASCII
    whitespace is [\t\n\v\f\r], [\x1c]-[\x1f] and the space. *)
Record unicode_laws (nfd : list N -> list N) (is_Mn : N -> bool)
    (lower : list N -> list N) (is_space : N -> bool) : Prop := {
  law_kept_app : forall a b,
    kept nfd is_Mn lower is_space (a ++ b) =
    kept nfd is_Mn lower is_space a ++ kept nfd is_Mn lower is_space b;
  law_nfd_ascii : forall c, c < 128 -> nfd [c] = [c];
  law_Mn_ascii : forall c, c < 128 -> is_Mn c = false;
  law_lower_ascii : forall c, c < 128 -> lower [c] = [ascii_lower c];
  law_space_ascii : forall c, c < 128 -> is_space c = ascii_space c
}.

(** A further fact of Python's tables: a whitespace character goes through
    NFD, the removal of marks and [str.lower] as one or more whitespace
    characters (U+2000 and U+2001 decompose to U+2002 and U+2003, the other
    whitespace characters are their own NFD and lowercase). *)
Definition space_kept (nfd : list N -> list N) (is_Mn : N -> bool)
    (lower : list N -> list N) (is_space : N -> bool) : Prop :=
  forall w, is_space w = true ->
    kept nfd is_Mn lower is_space [w] <> [] /\
    Forall (fun c => is_space c = true) (kept nfd is_Mn lower is_space [w]).

(** A table that agrees with Python's on the characters of the examples
    below ([é], [É], [ï], [ß], ASCII). *)
Definition decomp_db (c : N) : list N :=
  if c =? 233 then [101; 769] else if c =? 201 then [69; 769]
  else if c =? 239 then [105; 776] else [c].
Definition nfd_db (t : list N) : list N := flat_map decomp_db t.
Definition is_Mn_db (c : N) : bool := (768 <=? c) && (c <=? 879).
Definition lower_char_db (c : N) : N :=
  if (65 <=? c) && (c <=? 90) then c + 32 else if c =? 201 then 233 else c.
Definition lower_db (t : list N) : list N := map lower_char_db t.
Definition is_space_db (c : N) : bool := ascii_space c || (c =? 133) || (c =? 160).

Definition norm_db : list N -> list N := normalise_title nfd_db is_Mn_db lower_db is_space_db.

(** The code points of an ASCII string. *)
Definition cps (s : string) : list N := map N_of_ascii (txt s).

End Normalise.

(* ------------------------------------------------------------------ *)
(** ** normalise.py: [compute_stable_hash], [compute_title_hash]

    [text.encode("utf-8")] (strict errors: a lone surrogate raises
    [UnicodeEncodeError], [None] below), then SHA-256 as FIPS 180-4 defines
    it, on bytes and 32-bit words held in [Z], then [hexdigest()[:16]]. *)

Module Hash.
Local Open Scope Z_scope.

(** [str.encode("utf-8")] of one code point. A Python [str] holds code
    points up to [0x10FFFF]. *)
Definition utf8_char (c : N) : option (list Z) :=
  let z := Z.of_N c in
  if z <? 128 then Some [z]
  else if z <? 2048 then
    Some [Z.lor 192 (Z.shiftr z 6); Z.lor 128 (Z.land z 63)]
  else if (55296 <=? z) && (z <=? 57343) then None
  else if z <? 65536 then
    Some [Z.lor 224 (Z.shiftr z 12); Z.lor 128 (Z.land (Z.shiftr z 6) 63);
          Z.lor 128 (Z.land z 63)]
  else
    Some [Z.lor 240 (Z.shiftr z 18); Z.lor 128 (Z.land (Z.shiftr z 12) 63);
          Z.lor 128 (Z.land (Z.shiftr z 6) 63); Z.lor 128 (Z.land z 63)].

Fixpoint utf8_encode (s : list N) : option (list Z) :=
  match s with
  | [] => Some []
  | c :: s' =>
    match utf8_char c, utf8_encode s' with
    | Some b, Some bs => Some (b ++ bs)
    | _, _ => None
    end
  end.

Definition is_surrogate (c : N) : bool := ((55296 <=? c) && (c <=? 57343))%N.

(** 32-bit words. *)
Definition w32 (x : Z) : Z := Z.land x (2 ^ 32 - 1).
Definition add32 (x y : Z) : Z := w32 (x + y).
Definition rotr (x : Z) (n : Z) : Z := Z.lor (Z.shiftr x n) (w32 (Z.shiftl x (32 - n))).
Definition not32 (x : Z) : Z := Z.lxor x (2 ^ 32 - 1).

Definition big_sigma0 (x : Z) : Z := Z.lxor (Z.lxor (rotr x 2) (rotr x 13)) (rotr x 22).
Definition big_sigma1 (x : Z) : Z := Z.lxor (Z.lxor (rotr x 6) (rotr x 11)) (rotr x 25).
Definition small_sigma0 (x : Z) : Z := Z.lxor (Z.lxor (rotr x 7) (rotr x 18)) (Z.shiftr x 3).
Definition small_sigma1 (x : Z) : Z := Z.lxor (Z.lxor (rotr x 17) (rotr x 19)) (Z.shiftr x 10).
Definition ch (e f g : Z) : Z := Z.lxor (Z.land e f) (Z.land (not32 e) g).
Definition maj (a b c : Z) : Z := Z.lxor (Z.lxor (Z.land a b) (Z.land a c)) (Z.land b c).

Definition K : list Z :=
  [1116352408; 1899447441; 3049323471; 3921009573; 961987163; 1508970993; 2453635748; 2870763221;
   3624381080; 310598401; 607225278; 1426881987; 1925078388; 2162078206; 2614888103; 3248222580;
   3835390401; 4022224774; 264347078; 604807628; 770255983; 1249150122; 1555081692; 1996064986;
   2554220882; 2821834349; 2952996808; 3210313671; 3336571891; 3584528711; 113926993; 338241895;
   666307205; 773529912; 1294757372; 1396182291; 1695183700; 1986661051; 2177026350; 2456956037;
   2730485921; 2820302411; 3259730800; 3345764771; 3516065817; 3600352804; 4094571909; 275423344;
   430227734; 506948616; 659060556; 883997877; 958139571; 1322822218; 1537002063; 1747873779;
   1955562222; 2024104815; 2227730452; 2361852424; 2428436474; 2756734187; 3204031479; 3329325298].

Definition H0 : list Z :=
  [1779033703; 3144134277; 1013904242; 2773480762; 1359893119; 2600822924; 528734635; 1541459225].

(** Big-endian bytes of a number. *)
Definition be_bytes (n : nat) (x : Z) : list Z :=
  map (fun i => Z.land (Z.shiftr x (8 * Z.of_nat (n - 1 - i))) 255) (seq 0 n).

(** Padding: [0x80], zeros, and the length in bits as 64 bits. *)
Definition pad (bs : list Z) : list Z :=
  let len := Z.of_nat (length bs) in
  bs ++ [128] ++ repeat 0 (Z.to_nat ((55 - len) mod 64)) ++ be_bytes 8 (8 * len).

Fixpoint chunks (fuel : nat) (bs : list Z) : list (list Z) :=
  match fuel with
  | O => []
  | S f => match bs with [] => [] | _ => take 64 bs :: chunks f (drop 64 bs) end
  end.

Fixpoint be_words (bs : list Z) : list Z :=
  match bs with
  | a :: b :: c :: d :: r =>
    Z.lor (Z.shiftl a 24) (Z.lor (Z.shiftl b 16) (Z.lor (Z.shiftl c 8) d)) :: be_words r
  | _ => []
  end.

(** The message schedule [W_0 .. W_63] of a block. *)
Fixpoint schedule_go (k : nat) (w : list Z) : list Z :=
  match k with
  | O => w
  | S k' =>
    let t := length w in
    let wt := add32 (add32 (small_sigma1 (nth (t - 2) w 0)) (nth (t - 7) w 0))
                    (add32 (small_sigma0 (nth (t - 15) w 0)) (nth (t - 16) w 0)) in
    schedule_go k' (w ++ [wt])
  end.

Definition schedule (block : list Z) : list Z := schedule_go 48 (be_words block).

Record regs := mkRegs { ra : Z; rb : Z; rc : Z; rd : Z; re : Z; rf : Z; rg : Z; rh : Z }.

Definition round (s : regs) (kw : Z * Z) : regs :=
  let t1 := add32 (add32 (add32 (rh s) (big_sigma1 (re s))) (add32 (ch (re s) (rf s) (rg s)) kw.1)) kw.2 in
  let t2 := add32 (big_sigma0 (ra s)) (maj (ra s) (rb s) (rc s)) in
  mkRegs (add32 t1 t2) (ra s) (rb s) (rc s) (add32 (rd s) t1) (re s) (rf s) (rg s).

Definition regs_of (h : list Z) : regs :=
  mkRegs (nth 0 h 0) (nth 1 h 0) (nth 2 h 0) (nth 3 h 0)
         (nth 4 h 0) (nth 5 h 0) (nth 6 h 0) (nth 7 h 0).

Definition list_of (s : regs) : list Z := [ra s; rb s; rc s; rd s; re s; rf s; rg s; rh s].

Definition compress (h : list Z) (block : list Z) : list Z :=
  let s := fold_left round (zip K (schedule block)) (regs_of h) in
  zip_with add32 h (list_of s).

Definition sha256 (bs : list Z) : list Z :=
  let p := pad bs in
  flat_map (be_bytes 4) (fold_left compress (chunks (length p) p) H0).

Definition hex_digit (n : Z) : ascii :=
  nth (Z.to_nat n) (txt "0123456789abcdef") "0"%char.

(** [hexdigest()]. *)
Definition hexdigest (d : list Z) : text :=
  flat_map (fun b => [hex_digit (b / 16); hex_digit (b mod 16)]) d.

(** [compute_stable_hash]: [None] is the [UnicodeEncodeError] raised by
    [encode]. *)
Definition compute_stable_hash (t : list N) : option text :=
  match utf8_encode t with
  | Some bs => Some (take 16 (hexdigest (sha256 bs)))
  | None => None
  end.

Section Tables.
Variable nfd : list N -> list N.
Variable is_Mn : N -> bool.
Variable lower : list N -> list N.
Variable is_space : N -> bool.

(** [compute_title_hash]. *)
Definition compute_title_hash (title : list N) : option text :=
  compute_stable_hash (Normalise.normalise_title nfd is_Mn lower is_space title).

(** [CVFPaper.__init__]: [compute_stable_hash(f"{norm_title}_{year}_{venue}")].
    Formatting [year] raises [ValueError] for an int of more than 4300
    digits; [Ok None] is the [UnicodeEncodeError] of [compute_stable_hash]. *)
Definition cvf_canonical_id (title : list N) (year : Z) (venue : list N) : res (option text) :=
  if int_str_ok year then
    Ok (compute_stable_hash (Normalise.normalise_title nfd is_Mn lower is_space title ++
                             Normalise.cps "_" ++ Normalise.cps (pretty year) ++
                             Normalise.cps "_" ++ venue))
  else Err ValueError.

End Tables.

End Hash.

(* ------------------------------------------------------------------ *)
(** ** json.loads

    The C scanner of CPython's [json] module ([Modules/_json.c]:
    [scan_once_unicode], [_parse_object_unicode], [_parse_array_unicode],
    [scanstring_unicode], [_match_number_unicode]) behind
    [JSONDecoder.decode]. Every syntax error, including the [StopIteration]
    that [raw_decode] turns into "Expecting value", is a [JSONDecodeError];
    an integer literal longer than [sys.get_int_max_str_digits()] (4300)
    digits raises a plain [ValueError] in [int()]; nesting deeper than the
    recursion headroom raises [RecursionError]. *)

Module Json.

Local Set Warnings "-register-all".

Inductive jvalue :=
| JNull
| JBool (b : bool)
| JInt (z : Z)
| JFloat (q : Q)          (* a float literal, as its exact decimal value *)
| JInf (neg : bool)       (* Infinity, -Infinity *)
| JNaN
| JStr (s : list N)       (* code points *)
| JArr (l : list jvalue)
| JObj (kvs : list (list N * jvalue)).   (* pairs in source order *)

Definition is_ch (c d : ascii) : bool := Ascii.eqb c d.
Definition BSLASH : ascii := "\"%char.

(** [IS_WHITESPACE]: space, tab, LF, CR. *)
Definition is_ws (c : ascii) : bool :=
  is_ch c " "%char || is_ch c "009"%char || is_ch c LF || is_ch c CR.

Fixpoint skip_ws (s : text) : text :=
  match s with
  | c :: r => if is_ws c then skip_ws r else s
  | [] => []
  end.

Definition is_digit (c : ascii) : bool :=
  let n := N_of_ascii c in ((48 <=? n) && (n <=? 57))%N.

Fixpoint span_digits (s : text) : text * text :=
  match s with
  | c :: r => if is_digit c then let '(d, r') := span_digits r in (c :: d, r') else ([], s)
  | [] => ([], [])
  end.

Definition hex_val (c : ascii) : option N :=
  let n := N_of_ascii c in
  if ((48 <=? n) && (n <=? 57))%N then Some (n - 48)%N
  else if ((97 <=? n) && (n <=? 102))%N then Some (n - 87)%N
  else if ((65 <=? n) && (n <=? 70))%N then Some (n - 55)%N
  else None.

Definition hex4 (a b c d : ascii) : option N :=
  match hex_val a, hex_val b, hex_val c, hex_val d with
  | Some x, Some y, Some z, Some w => Some (((x * 16 + y) * 16 + z) * 16 + w)%N
  | _, _, _, _ => None
  end.

Definition is_high (c : N) : bool := ((55296 <=? c) && (c <=? 56319))%N.
Definition is_low (c : N) : bool := ((56320 <=? c) && (c <=? 57343))%N.
Definition join_surrogates (c c2 : N) : N := (65536 + (c - 55296) * 1024 + (c2 - 56320))%N.

(** The one-character escapes. *)
Definition simple_escape (e : ascii) : option N :=
  if is_ch e QUOTE then Some 34%N
  else if is_ch e BSLASH then Some 92%N
  else if is_ch e "/"%char then Some 47%N
  else if is_ch e "b"%char then Some 8%N
  else if is_ch e "f"%char then Some 12%N
  else if is_ch e "n"%char then Some 10%N
  else if is_ch e "r"%char then Some 13%N
  else if is_ch e "t"%char then Some 9%N
  else None.

(** [scanstring_unicode] with [strict=True], from just after the opening
    quote. A [\u] escape needs a character after its four digits; a high
    surrogate joins a following [\u] low surrogate when at least seven
    characters follow it. *)
Fixpoint scanstring (s : text) (acc : list N) : res (list N * text) :=
  match s with
  | [] => Err JSONDecodeError
  | c :: r =>
    if is_ch c QUOTE then Ok (rev acc, r)
    else if is_ch c BSLASH then
      match r with
      | [] => Err JSONDecodeError
      | e :: r1 =>
        if is_ch e "u"%char then
          match r1 with
          | a :: b :: c1 :: d :: r2 =>
            match r2, hex4 a b c1 d with
            | [], _ => Err JSONDecodeError
            | _, None => Err JSONDecodeError
            | _, Some cp =>
              if is_high cp && (7 <=? length r2)%nat then
                match r2 with
                | b1 :: u1 :: e1 :: f1 :: g1 :: h1 :: r3 =>
                  if is_ch b1 BSLASH && is_ch u1 "u"%char then
                    match hex4 e1 f1 g1 h1 with
                    | None => Err JSONDecodeError
                    | Some c2 =>
                      if is_low c2 then scanstring r3 (join_surrogates cp c2 :: acc)
                      else scanstring r2 (cp :: acc)
                    end
                  else scanstring r2 (cp :: acc)
                | _ => scanstring r2 (cp :: acc)
                end
              else scanstring r2 (cp :: acc)
            end
          | _ => Err JSONDecodeError
          end
        else
          match simple_escape e with
          | Some x => scanstring r1 (x :: acc)
          | None => Err JSONDecodeError
          end
      end
    else if (N_of_ascii c <=? 31)%N then Err JSONDecodeError
    else scanstring r (N_of_ascii c :: acc)
  end.

Definition digits_value (ds : text) : Z :=
  fold_left (fun z c => z * 10 + Z.of_N (N_of_ascii c - 48))%Z ds 0%Z.

Definition int_max_str_digits : nat := 4300.

(** The value of a float literal: sign, integer digits, fraction digits,
    exponent. [float()] rounds it to the nearest double. *)
Definition float_value (neg : bool) (ip fp : text) (e : Z) : Q :=
  let m := digits_value (ip ++ fp) in
  let m := if neg then (- m)%Z else m in
  let sc := (e - Z.of_nat (length fp))%Z in
  if (0 <=? sc)%Z then inject_Z (m * 10 ^ sc) else Qmake m (Z.to_pos (10 ^ (- sc))).

(** [_match_number_unicode]: [None] is its [StopIteration]. *)
Definition match_number (s : text) : option (res jvalue * text) :=
  let '(neg, s1) :=
    match s with
    | c :: t => if is_ch c "-"%char then (true, t) else (false, s)
    | [] => (false, s)
    end in
  let int_part :=
    match s1 with
    | c :: t =>
      if is_ch c "0"%char then Some ([c], t)
      else if is_digit c then let '(ds, t') := span_digits t in Some (c :: ds, t')
      else None
    | [] => None
    end in
  match int_part with
  | None => None
  | Some (ip, t1) =>
    let '(fp, t2) :=
      match t1 with
      | d :: e :: t =>
        if is_ch d "."%char && is_digit e then let '(ds, t') := span_digits t in (Some (e :: ds), t')
        else (None, t1)
      | _ => (None, t1)
      end in
    let '(ep, t3) :=
      match t2 with
      | e :: x :: t =>
        if is_ch e "e"%char || is_ch e "E"%char then
          if (is_ch x "-"%char || is_ch x "+"%char) && negb (bool_decide (t = [])) then
            let '(ds, t') := span_digits t in
            match ds with
            | [] => (None, t2)
            | _ => (Some (if is_ch x "-"%char then (- digits_value ds)%Z else digits_value ds), t')
            end
          else
            let '(ds, t') := span_digits (x :: t) in
            match ds with
            | [] => (None, t2)
            | _ => (Some (digits_value ds), t')
            end
        else (None, t2)
      | _ => (None, t2)
      end in
    let v :=
      match fp, ep with
      | None, None =>
        if (int_max_str_digits <? length ip)%nat then Err ValueError
        else Ok (JInt (if neg then (- digits_value ip)%Z else digits_value ip))
      | _, _ =>
        Ok (JFloat (float_value neg ip (default [] fp) (default 0%Z ep)))
      end in
    Some (v, t3)
  end.

Fixpoint strip_prefix (p s : text) : option text :=
  match p, s with
  | [], _ => Some s
  | c :: p', d :: s' => if is_ch c d then strip_prefix p' s' else None
  | _, [] => None
  end.

(** The named constants [scan_once_unicode] recognises by their first
    character; on a mismatch it falls through to the number matcher. *)
Definition constant (s : text) : option (jvalue * text) :=
  let try_ := fun (w : string) (v : jvalue) =>
    match strip_prefix (txt w) s with Some r => Some (v, r) | None => None end in
  match s with
  | c :: _ =>
    if is_ch c "n"%char then try_ "null"%string JNull
    else if is_ch c "t"%char then try_ "true"%string (JBool true)
    else if is_ch c "f"%char then try_ "false"%string (JBool false)
    else if is_ch c "N"%char then try_ "NaN"%string JNaN
    else if is_ch c "I"%char then try_ "Infinity"%string (JInf false)
    else if is_ch c "-"%char then try_ "-Infinity"%string (JInf true)
    else None
  | [] => None
  end.

Section Scanner.

(** How many more containers [_Py_EnterRecursiveCall] lets the scanner
    open at the point [json.loads] is called. *)
Variable limit : nat.

(** [fuel] bounds the calls; every two nested calls consume a character. *)
Fixpoint scan_once (fuel depth : nat) (s : text) {struct fuel} : res (jvalue * text) :=
  match fuel with
  | O => Err JSONDecodeError
  | S f =>
    match s with
    | [] => Err JSONDecodeError
    | c :: r =>
      if is_ch c QUOTE then let? p := scanstring r [] in Ok (JStr p.1, p.2)
      else if is_ch c "{"%char then
        if (limit <=? depth)%nat then Err RecursionError
        else parse_object f (S depth) (skip_ws r) [] true
      else if is_ch c "["%char then
        if (limit <=? depth)%nat then Err RecursionError
        else parse_array f (S depth) (skip_ws r) [] true
      else
        match constant s with
        | Some vr => Ok vr
        | None =>
          match match_number s with
          | None => Err JSONDecodeError
          | Some (v, r') => let? x := v in Ok (x, r')
          end
        end
    end
  end
with parse_object (fuel depth : nat) (s : text) (acc : list (list N * jvalue)) (first : bool)
    {struct fuel} : res (jvalue * text) :=
  match fuel with
  | O => Err JSONDecodeError
  | S f =>
    match s with
    | [] => Err JSONDecodeError
    | c :: r =>
      if first && is_ch c "}"%char then Ok (JObj [], r)
      else if is_ch c QUOTE then
        let? k := scanstring r [] in
        match skip_ws k.2 with
        | d :: r2 =>
          if is_ch d ":"%char then
            let? v := scan_once f depth (skip_ws r2) in
            let acc' := (k.1, v.1) :: acc in
            match skip_ws v.2 with
            | e :: r3 =>
              if is_ch e "}"%char then Ok (JObj (rev acc'), r3)
              else if is_ch e ","%char then parse_object f depth (skip_ws r3) acc' false
              else Err JSONDecodeError
            | [] => Err JSONDecodeError
            end
          else Err JSONDecodeError
        | [] => Err JSONDecodeError
        end
      else Err JSONDecodeError
    end
  end
with parse_array (fuel depth : nat) (s : text) (acc : list jvalue) (first : bool)
    {struct fuel} : res (jvalue * text) :=
  match fuel with
  | O => Err JSONDecodeError
  | S f =>
    match s with
    | c :: r => if first && is_ch c "]"%char then Ok (JArr [], r) else
      let? v := scan_once f depth s in
      match skip_ws v.2 with
      | e :: r3 =>
        if is_ch e "]"%char then Ok (JArr (rev (v.1 :: acc)), r3)
        else if is_ch e ","%char then parse_array f depth (skip_ws r3) (v.1 :: acc) false
        else Err JSONDecodeError
      | [] => Err JSONDecodeError
      end
    | [] => Err JSONDecodeError
    end
  end.

(** [json.loads(s)] for a [str] [s]: [JSONDecoder.decode]. *)
Definition loads (s : text) : res jvalue :=
  let? p := scan_once (2 * length s + 2) 0 (skip_ws s) in
  match skip_ws p.2 with
  | [] => Ok p.1
  | _ => Err JSONDecodeError
  end.

End Scanner.

(** [sys.getrecursionlimit()]'s default: the headroom [json.loads] has is
    at most this. *)
Definition recursion_limit : nat := 1000.

(** [dict.get(k, d)] on the dict [json.loads] builds: the last pair with
    key [k] wins. *)
Definition jget (k : list N) (kvs : list (list N * jvalue)) (d : jvalue) : jvalue :=
  match List.find (fun kv => bool_decide (kv.1 = k)) (rev kvs) with
  | Some kv => kv.2
  | None => d
  end.

End Json.

(* ------------------------------------------------------------------ *)
(** ** reflection.py: the critic / reviser graph *)

Module Reflection.
Import Json.

Inductive node := Critic | Reviser.
Inductive route := Revise | Accept.

(** [ReflectionState] ([messages] stays empty and is left out). String
    fields are lists of code points; the three output fields hold whatever
    the reviser's JSON gave. *)
Record rstate := mkRState {
  title : list N;
  authors : list N;
  venue : list N;
  year : Z;
  abstract : list N;
  abstract_rewrite : jvalue;
  problem_solved : jvalue;
  linkedin_post : jvalue;
  critique : text;
  revision_actions : jvalue;
  iteration : Z;
  max_iterations : Z;
  score : jvalue
}.

Definition set_critique (s : rstate) (c : text) (acts sc : jvalue) : rstate :=
  mkRState (title s) (authors s) (venue s) (year s) (abstract s)
    (abstract_rewrite s) (problem_solved s) (linkedin_post s) c acts
    (iteration s) (max_iterations s) sc.

Definition set_outputs (s : rstate) (ar ps lp : jvalue) : rstate :=
  mkRState (title s) (authors s) (venue s) (year s) (abstract s) ar ps lp
    (critique s) (revision_actions s) (iteration s) (max_iterations s) (score s).

Definition incr_iteration (s : rstate) : rstate :=
  mkRState (title s) (authors s) (venue s) (year s) (abstract s)
    (abstract_rewrite s) (problem_solved s) (linkedin_post s) (critique s)
    (revision_actions s) (iteration s + 1) (max_iterations s) (score s).

(** [settings.reflection_max_iterations]. *)
Definition reflection_max_iterations : Z := 1.

(** The initial [ReflectionState] of [reflect]. *)
Definition init_state (mi : Z) (ti au ve : list N) (yr : Z) (ab ar ps lp : list N) : rstate :=
  mkRState ti au ve yr ab (JStr ar) (JStr ps) (JStr lp) [] (JArr []) 0 mi (JFloat 0).

(** The text the code hands to [json.loads], with [critique_text] as it
    stands afterwards: the [re.search(r'\{[\s\S]*\}', t)] match (from the
    first [{] to the last [}]); otherwise [t.strip()], or, when that starts
    with three backquotes and has more than two lines, its lines but the
    first and the last. *)
Fixpoint skip_until (p : ascii -> bool) (t : text) : text :=
  match t with
  | c :: r => if p c then t else skip_until p r
  | [] => []
  end.

Definition brace_match (t : text) : option text :=
  match skip_until (fun c => is_ch c "{"%char) t with
  | [] => None
  | after =>
    match skip_until (fun c => is_ch c "}"%char) (rev after) with
    | [] => None
    | r => Some (rev r)
    end
  end.

(** [str.isspace] on the code points below 256: the ASCII whitespace,
    U+0085 and U+00A0. *)
Definition py_isspace (c : ascii) : bool :=
  let n := N_of_ascii c in Normalise.ascii_space n || (n =? 133)%N || (n =? 160)%N.

Definition py_strip (t : text) : text :=
  let ns := fun c => negb (py_isspace c) in
  rev (skip_until ns (rev (skip_until ns t))).

(** [str.split("\n")] and ["\n".join]. *)
Fixpoint split_lf (t : text) : list text :=
  match t with
  | [] => [[]]
  | c :: r =>
    let ls := split_lf r in
    if is_lf c then [] :: ls
    else match ls with l :: ls' => (c :: l) :: ls' | [] => [[c]] end
  end.

Fixpoint join_lf (ls : list text) : text :=
  match ls with
  | [] => []
  | [l] => l
  | l :: ls' => l ++ LF :: join_lf ls'
  end.

Definition fenced (t : text) : bool :=
  match t with
  | a :: b :: c :: _ => is_ch a "`"%char && is_ch b "`"%char && is_ch c "`"%char
  | _ => false
  end.

Definition extract (t : text) : text * text :=
  match brace_match t with
  | Some js => (js, t)
  | None =>
    let t' := py_strip t in
    if fenced t' then
      let lines := split_lf t' in
      ((if (2 <? length lines)%nat then join_lf (removelast (tail lines)) else t'), t')
    else (t', t')
  end.

(** [len(x)] in the critic's log line and [for a in x] in the reviser's
    prompt: both need a [str], [list] or [dict]. *)
Definition len_ok (v : jvalue) : res unit :=
  match v with JStr _ | JArr _ | JObj _ => Ok tt | _ => Err TypeError end.

Definition iter_ok (v : jvalue) : res unit :=
  match v with JStr _ | JArr _ | JObj _ => Ok tt | _ => Err TypeError end.

(** [score >= 8.0]. An [int] compares exactly, [bool] as 0 or 1; a float
    literal [q] compares after rounding, and [float(q) >= 8.0] exactly when
    [q >= 8 - 2^-51], the midpoint between [8.0] and the double below it
    (a tie rounds to the even [8.0]). Any other type raises [TypeError]. *)
Definition ge_8_0 (v : jvalue) : res bool :=
  match v with
  | JInt z => Ok (8 <=? z)%Z
  | JFloat q => Ok (Qle_bool ((8 # 1) - (1 # (2 ^ 51)))%Q q)
  | JInf neg => Ok (negb neg)
  | JNaN => Ok false
  | JBool _ => Ok false
  | _ => Err TypeError
  end.

(** [_should_revise]. *)
Definition should_revise (s : rstate) : res route :=
  let? b := ge_8_0 (score s) in
  Ok (if b || (max_iterations s <=? iteration s)%Z then Accept else Revise).

Definition k_revision_actions : list N := Normalise.cps "revision_actions".
Definition k_overall_score : list N := Normalise.cps "overall_score".
Definition k_abstract_rewrite : list N := Normalise.cps "abstract_rewrite".
Definition k_problem_solved : list N := Normalise.cps "problem_solved".
Definition k_linkedin_post : list N := Normalise.cps "linkedin_post".

Section Graph.

(** [llm_client.generate_with_system]: the model's answer to the node's
    prompt, which is built from the state. *)
Variable gen : node -> rstate -> text.
(** [json.loads]. *)
Variable loads : text -> res jvalue.

(** [_critic_node]. [.get] on a non-dict raises [AttributeError], caught
    like [JSONDecodeError]; any other exception escapes. *)
Definition critic_node (s : rstate) : res rstate :=
  let '(js, ct) := extract (gen Critic s) in
  match loads js with
  | Ok (JObj kvs) =>
    let acts := jget k_revision_actions kvs (JArr []) in
    let sc := jget k_overall_score kvs (JInt 5) in
    let s' := set_critique s js acts sc in
    let? _ := len_ok acts in
    Ok s'
  | Ok _ | Err JSONDecodeError => Ok (set_critique s ct (JArr []) (JFloat 8))
  | Err e => Err e
  end.

(** [_reviser_node]. *)
Definition reviser_node (s : rstate) : res rstate :=
  let? _ := iter_ok (revision_actions s) in
  let js := (extract (gen Reviser s)).1 in
  let? s' :=
    match loads js with
    | Ok (JObj kvs) =>
      Ok (set_outputs s (jget k_abstract_rewrite kvs (abstract_rewrite s))
                        (jget k_problem_solved kvs (problem_solved s))
                        (jget k_linkedin_post kvs (linkedin_post s)))
    | Ok _ | Err JSONDecodeError => Ok s
    | Err e => Err e
    end in
  Ok (incr_iteration s').

Definition run_node (n : node) (s : rstate) : res rstate :=
  match n with Critic => critic_node s | Reviser => reviser_node s end.

(** [_build_graph]: the edges out of a node, [None] being [END]. *)
Definition edge (n : node) (s : rstate) : res (option node) :=
  match n with
  | Critic => let? r := should_revise s in Ok (match r with Revise => Some Reviser | Accept => None end)
  | Reviser => Ok None
  end.

(** LangGraph's run of the compiled graph: the final state and the nodes
    executed, one per step; more than [recursion_limit] (25) steps raise
    [GraphRecursionError]. *)
Fixpoint run_graph (fuel : nat) (n : node) (s : rstate) : res (rstate * list node) :=
  match fuel with
  | O => Err GraphRecursionError
  | S f =>
    let? s' := run_node n s in
    let? e := edge n s' in
    match e with
    | None => Ok (s', [n])
    | Some m => let? p := run_graph f m s' in Ok (p.1, n :: p.2)
    end
  end.

Definition graph_recursion_limit : nat := 25.

Definition reflect_run (mi : Z) (ti au ve : list N) (yr : Z) (ab ar ps lp : list N)
  : res (rstate * list node) :=
  run_graph graph_recursion_limit Critic (init_state mi ti au ve yr ab ar ps lp).

(** [reflect]: the three output fields of the final state. *)
Definition reflect (mi : Z) (ti au ve : list N) (yr : Z) (ab ar ps lp : list N)
  : res (jvalue * jvalue * jvalue) :=
  let? p := reflect_run mi ti au ve yr ab ar ps lp in
  Ok (abstract_rewrite p.1, problem_solved p.1, linkedin_post p.1).

End Graph.


(** Example model answers. JSON is written with ['] for its quote. *)
Definition jtxt (s : string) : text :=
  map (fun c => if is_ch c "'"%char then QUOTE else c) (txt s).

Definition ex_loads : text -> res jvalue := loads recursion_limit.

Definition gen_of (critic reviser : text) : node -> rstate -> text :=
  fun n _ => match n with Critic => critic | Reviser => reviser end.

End Reflection.

(* ------------------------------------------------------------------ *)
(** ** pipeline.py: the retrieval loop and the ledger calls of [run] *)

Module Orchestrator.

(** A paper, by its [to_dict()] (which always has [canonical_id]). *)
Definition paper := list (string * pyval).

(** [filter_new_papers]: [is_processed] is membership in [processed_ids]. *)
Definition filter_new_papers (l : ledger) (ps : list paper) : list paper :=
  List.filter (fun p => negb (bool_decide (dict_get "canonical_id" p PNone ∈ processed_ids l))) ps.

Definition max_batch_size : Z := 50.

(** The loop's variables: [attempt], [batch_size], [new_papers]. *)
Record rloop := mkLoop {
  attempt : nat;
  batch_size : Z;
  new_papers : list paper
}.

Inductive step := Stop (s : rloop) | Continue (s : rloop).

Section Loop.

(** [retrieve_all_papers(days_back, batch_size)] on the given attempt. *)
Variable retrieve : nat -> Z -> list paper.
Variable l : ledger.
Variable target : Z.

(** One pass of the [while] body. *)
Definition loop_body (s : rloop) : step :=
  let a := S (attempt s) in
  let all := retrieve a (batch_size s) in
  match all with
  | [] => Stop (mkLoop a (batch_size s) (new_papers s))
  | _ =>
    let np := filter_new_papers l all in
    if (target <=? Z.of_nat (length np))%Z then Stop (mkLoop a (batch_size s) np)
    else if (max_batch_size <=? batch_size s)%Z && (length np =? 0)%nat then
      Stop (mkLoop a (batch_size s) np)
    else Continue (mkLoop a (Z.min (batch_size s * 2) max_batch_size) np)
  end.

(** [while len(new_papers) < target_papers: ...], with at most [fuel]
    passes; [None] when they are not enough. *)
Fixpoint retrieval_loop (fuel : nat) (s : rloop) : option rloop :=
  match fuel with
  | O => None
  | S f =>
    if (Z.of_nat (length (new_papers s)) <? target)%Z then
      match loop_body s with
      | Stop s' => Some s'
      | Continue s' => retrieval_loop f s'
      end
    else Some s
  end.

(** The loop runs forever from [s]. *)
CoInductive loops_forever : rloop -> Prop :=
| loops_step (s s' : rloop) :
    (Z.of_nat (length (new_papers s)) < target)%Z ->
    loop_body s = Continue s' -> loops_forever s' -> loops_forever s.

End Loop.

Definition loop_start (b0 : Z) : rloop := mkLoop 0 b0 [].

(** What [run] does to the ledger. *)
Inductive ledger_op := AddEntry (p : paper) | Save.

Section RunOps.

(** Whether [process_paper] gets to [ledger.add_entry] for a paper:
    [generate_outputs] gave outputs and nothing raised before the call
    (reflection failures are caught inside [process_paper]). *)
Variable reaches_add : paper -> bool.

Definition process_paper_ops (p : paper) : list ledger_op :=
  if reaches_add p then [AddEntry p] else [].

(** [run]: the selected papers, then the selected Reddit posts, each through
    [process_paper] (its exceptions caught), then one [ledger.save()]. *)
Definition run_ops (papers reddit : list paper) : list ledger_op :=
  flat_map process_paper_ops papers ++ flat_map process_paper_ops reddit ++ [Save].

End RunOps.

Section Exec.

Variable model_name : string.
Variable outputs : paper -> pyval * pyval * pyval.
Variable now : paper -> string.
Variable flt : fault.

(** The ledger operations on the in-memory ledger and the file system. *)
Definition exec_op (st : ledger * fs) (op : ledger_op) : ledger * fs :=
  match op with
  | AddEntry p =>
    let '(ar, ps, lp) := outputs p in
    (add_entry st.1 p model_name ar ps lp (now p), st.2)
  | Save => (st.1, (save st.1 flt st.2).2)
  end.

Definition exec_ops (ops : list ledger_op) (st : ledger * fs) : ledger * fs :=
  fold_left exec_op ops st.

End Exec.

(** Example papers. *)
Definition mk_paper (i : nat) : paper :=
  [("canonical_id", PStr ("arxiv:" +:+ pretty (N.of_nat i)))]%string.

Definition papers_upto (n : nat) : list paper := map mk_paper (seq 0 n).

(** A source that returns [batch_size / 5] papers below the ceiling and
    nothing at it. *)
Definition ex_retrieve (_ : nat) (b : Z) : list paper :=
  if (max_batch_size <=? b)%Z then [] else papers_upto (Z.to_nat (b / 5)).


(** [x or d] for the optional integer arguments of [run]. *)
Definition py_or (arg : option Z) (dflt : Z) : Z :=
  match arg with Some z => if (z =? 0)%Z then dflt else z | None => dflt end.

(** [xs[:n]]. *)
Definition py_slice_to {A} (n : Z) (xs : list A) : list A :=
  if (0 <=? n)%Z then take (Z.to_nat n) xs else take (length xs - Z.to_nat (- n)) xs.

Section Run.

Variable retrieve : nat -> Z -> list paper.
Variable fuel : nat.
Variable reaches_add : paper -> bool.
Variable model_name : string.
Variable outputs : paper -> pyval * pyval * pyval.
Variable now : paper -> string.
Variable flt : fault.

(** [settings.output_format == "2_papers_1_tool"]. *)
Variable two_papers_one_tool : bool.

Definition target_papers_of (arg : option Z) : Z := py_or arg (if two_papers_one_tool then 2 else 3).
Definition target_reddit_of (arg : option Z) : Z := py_or arg (if two_papers_one_tool then 1 else 0).

(** [run]: the papers kept by the retrieval loop, cut to [target_papers];
    then the Reddit posts ([reddit_posts] is what [retrieve_reddit_posts]
    returns) that the ledger, as the papers left it, does not know, cut to
    [target_reddit]; then the ledger calls of [run_ops]. [None] when the
    loop needs more than [fuel] passes. *)
Definition run (b0 : Z) (tp_arg tr_arg : option Z) (reddit_posts : list paper)
    (st : ledger * fs) : option (ledger * fs) :=
  let tp := target_papers_of tp_arg in
  let tr := target_reddit_of tr_arg in
  match retrieval_loop retrieve st.1 tp fuel (loop_start b0) with
  | None => None
  | Some s =>
    let papers := match new_papers s with [] => [] | nps => py_slice_to tp nps end in
    let st1 := exec_ops model_name outputs now flt
                 (flat_map (process_paper_ops reaches_add) papers) st in
    let reddit :=
      if (0 <? tr)%Z then
        match filter_new_papers st1.1 reddit_posts with [] => [] | nr => py_slice_to tr nr end
      else [] in
    Some (exec_ops model_name outputs now flt (run_ops reaches_add papers reddit) st)
  end.

End Run.

(** A paper's [canonical_id], as [add_entry] records it. *)
Definition paper_id (p : paper) : pyval := dict_get "canonical_id" p PNone.

(** The row [add_entry] appends for a paper. *)
Definition entry_out (model_name : string) (outputs : paper -> pyval * pyval * pyval)
    (now : paper -> string) (p : paper) : row :=
  let '(ar, ps, lp) := outputs p in entry_of p model_name ar ps lp (now p).


End Orchestrator.

(* ================================================================== *)
(** * Properties of the ledger file format *)

Definition write_row_lf (fs : list text) : text := CsvWrite.write_row_body fs ++ [LF].

(** The values [DictWriter] writes for a row, in column order. *)
Definition vals (r : row) : list pyval := map (fun k => row_get k r (PStr "")) FIELDNAMES.

Definition row_ok (r : row) : Prop :=
  rest r = None /\ Forall (fun k => k ∈ FIELDNAMES) (map fst (cells r)).

(** The row [DictReader] gives back for a row [DictWriter] wrote: every
    column holds the string the writer rendered, after universal newlines. *)
Definition reloaded (r : row) : row :=
  mkRow (map (fun k => (k, PStr (str (unl (render (row_get k r (PStr ""))))))) FIELDNAMES) None.

(** Every rendered value fits in the reader's field limit. *)
Definition fits (r : row) : Prop :=
  Forall (fun v => (N.of_nat (length (render v)) <= CsvRead.field_limit)%N) (vals r).

(** Example data: a ledger at [data/ledger.csv] with one paper. *)
Definition ex_path : path := mkPath ["data"] "ledger.csv".

Definition empty_fs : fs := fun _ => None.

Definition ex_paper : list (string * pyval) :=
  [("canonical_id", PStr "arxiv:2401.00001"); ("source", PStr "arxiv");
   ("arxiv_id", PStr "2401.00001"); ("doi", PNone);
   ("title", PStr "Splatting, revisited"); ("authors", PStr "A. Author");
   ("year", PInt 2024)]%string.

Definition ex_ledger : ledger :=
  add_entry (mkLedger ex_path [] []) ex_paper "model-x"
            (PStr "rewrite") (PStr "problem") (PStr "post") "2024-01-02T03:04:05".

(* ------------------------------------------------------------------ *)
(** ** Definitions used by the further properties *)

(** Rows [DictWriter] can write. *)
Definition writable (r : row) : bool :=
  match dict_to_list r with Ok vs => forallb str_ok vs | Err _ => false end.

(** No two neighbours are both whitespace. *)
Fixpoint no_adj (is_space : N -> bool) (l : list N) : bool :=
  match l with
  | a :: ((b :: _) as t) => negb (is_space a && is_space b) && no_adj is_space t
  | _ => true
  end.

(** An example ledger file with an extra [notes] column. *)
Definition ex_foreign_fs : fs :=
  fs_upd empty_fs ex_path (Some (FText (txt "canonical_id,title,notes
x,y,z
"))).


(** A retrieval in which the first two papers are one paper, as when two
    sources both return it; [ex_paper] is the one [ex_ledger] holds. *)
Definition ex_dup_retrieve (_ : nat) (_ : Z) : list Orchestrator.paper :=
  [Orchestrator.mk_paper 1; Orchestrator.mk_paper 1; ex_paper; Orchestrator.mk_paper 2].

Section UnlLemmas.

Lemma unl_cr_lf (s : text) : unl (CR :: LF :: s) = LF :: unl s.
Proof. reflexivity. Qed.

Lemma is_cr_false (c : ascii) : c <> CR -> is_cr c = false.
Proof. intros. by apply bool_decide_false. Qed.
Lemma is_lf_false (c : ascii) : c <> LF -> is_lf c = false.
Proof. intros. by apply bool_decide_false. Qed.

Lemma unl_cons_ncr (c : ascii) (t : text) : c <> CR -> unl (c :: t) = c :: unl t.
Proof. intros Hc. simpl. by rewrite is_cr_false. Qed.

Lemma unl_cr_nlf (d : ascii) (t : text) : d <> LF -> unl (CR :: d :: t) = LF :: unl (d :: t).
Proof. intros Hd. cbn [unl]. rewrite (is_lf_false d Hd). reflexivity. Qed.

Lemma unl_app_aux (n : nat) : forall (a b : text), length a <= n ->
  (last a = Some CR -> head b <> Some LF) -> unl (a ++ b) = unl a ++ unl b.
Proof.
  induction n as [|n IH]; intros a b Hlen Hb.
  - destruct a; [reflexivity | simpl in Hlen; lia].
  - destruct a as [|c a']; [reflexivity|]. simpl in Hlen.
    destruct (decide (c = CR)) as [->|Hc].
    + destruct a' as [|d a''].
      * destruct b as [|d b']; [reflexivity|].
        destruct (decide (d = LF)) as [->|Hd]; [by destruct Hb|].
        cbn [app]. rewrite unl_cr_nlf by done. reflexivity.
      * destruct (decide (d = LF)) as [->|Hd].
        -- cbn [app]. simpl in Hlen. rewrite !unl_cr_lf, IH; [reflexivity|lia|].
           intros Hl. apply Hb. destruct a''; [discriminate|]. exact Hl.
        -- cbn [app]. rewrite !unl_cr_nlf by done.
           simpl in Hlen. change (d :: a'' ++ b) with ((d :: a'') ++ b).
           rewrite IH; [reflexivity|simpl; lia|].
           intros Hl. apply Hb. exact Hl.
    + cbn [app]. rewrite !unl_cons_ncr by done. rewrite IH; [reflexivity|lia|].
      intros Hl. apply Hb. destruct a'; [discriminate|]. exact Hl.
Qed.

Lemma unl_app (a b : text) :
  (last a = Some CR -> head b <> Some LF) -> unl (a ++ b) = unl a ++ unl b.
Proof. apply (unl_app_aux (length a)); lia. Qed.


Lemma unl_nil (t : text) : unl t = [] <-> t = [].
Proof.
  split; [|intros ->; reflexivity].
  destruct t as [|c t]; [done|]. simpl. by case_match.
Qed.

Lemma unl_length_aux (n : nat) : forall t : text, length t <= n -> length (unl t) <= length t.
Proof.
  induction n as [|n IH]; intros t Hl.
  - destruct t; [simpl; lia|simpl in Hl; lia].
  - destruct t as [|c t]; [simpl; lia|]. simpl in Hl. simpl.
    case_match.
    + destruct t as [|d t]; [simpl; lia|]. case_match.
      * specialize (IH t). simpl in *. lia.
      * specialize (IH (d :: t)). simpl in *. lia.
    + specialize (IH t). simpl. lia.
Qed.

Lemma unl_length (t : text) : length (unl t) <= length t.
Proof. by apply (unl_length_aux (length t)). Qed.

Lemma unl_not_cr_aux (n : nat) : forall t : text, length t <= n -> CR ∉ unl t.
Proof.
  induction n as [|n IH]; intros t Hl.
  - destruct t; [simpl; apply not_elem_of_nil|simpl in Hl; lia].
  - destruct t as [|c t]; [apply not_elem_of_nil|]. simpl in Hl. simpl.
    case_match.
    + intros Hin. apply elem_of_cons in Hin as [Hin|Hin]; [discriminate|].
      destruct t as [|d t]; [by apply not_elem_of_nil in Hin|]. case_match.
      * revert Hin. apply IH. simpl in *. lia.
      * revert Hin. apply IH. simpl in *. lia.
    + intros Hin. apply elem_of_cons in Hin as [Hin|Hin].
      * subst. unfold is_cr in *. rewrite bool_decide_true in H; done.
      * revert Hin. apply IH. lia.
Qed.

Lemma unl_not_cr (t : text) : CR ∉ unl t.
Proof. by apply (unl_not_cr_aux (length t)). Qed.

End UnlLemmas.

Section WriterLemmas.
Import CsvWrite.

Lemma needs_quote_unl (f : text) : needs_quote (unl f) = needs_quote f.
Proof.
  induction f as [|c f IH]; [reflexivity|].
  destruct (decide (c = CR)) as [->|Hc].
  - reflexivity.
  - rewrite unl_cons_ncr by done. unfold needs_quote in *. simpl. by rewrite IH.
Qed.

Lemma escape_app (a b : text) : escape (a ++ b) = escape a ++ escape b.
Proof. induction a as [|c a IH]; [done|]. simpl. case_match; by rewrite IH. Qed.

Lemma escape_head (d : ascii) (f : text) : exists t, escape (d :: f) = d :: t.
Proof.
  simpl. destruct (is_quote d) eqn:E; [|eauto].
  unfold is_quote in E. apply bool_decide_eq_true in E. subst. eauto.
Qed.

Lemma escape_quote (f : text) : escape (QUOTE :: f) = QUOTE :: QUOTE :: escape f.
Proof. reflexivity. Qed.

Lemma escape_nq (c : ascii) (f : text) : c <> QUOTE -> escape (c :: f) = c :: escape f.
Proof. intros Hc. simpl. unfold is_quote. by rewrite bool_decide_false. Qed.

Lemma unl_escape_aux (n : nat) : forall f : text, length f <= n -> unl (escape f) = escape (unl f).
Proof.
  induction n as [|n IH]; intros f Hl.
  - destruct f; [done|simpl in Hl; lia].
  - destruct f as [|c f]; [done|]. simpl in Hl.
    destruct (decide (c = QUOTE)) as [->|Hq].
    + rewrite escape_quote, !unl_cons_ncr by done.
      rewrite escape_quote, IH by lia. done.
    + destruct (decide (c = CR)) as [->|Hc].
      * destruct f as [|d f]; [done|]. simpl in Hl.
        destruct (decide (d = LF)) as [->|Hd].
        -- rewrite !escape_nq by done. rewrite !unl_cr_lf, IH by lia.
           rewrite escape_nq by done. done.
        -- destruct (escape_head d f) as [t Ht].
           rewrite escape_nq by done. rewrite Ht, unl_cr_nlf by done.
           rewrite <- Ht, IH by (simpl; lia).
           rewrite unl_cr_nlf by done. rewrite escape_nq by done. done.
      * rewrite escape_nq by done. rewrite !unl_cons_ncr by done.
        rewrite IH by lia. rewrite escape_nq by done. done.
Qed.

Lemma unl_escape (f : text) : unl (escape f) = escape (unl f).
Proof. by apply (unl_escape_aux (length f)). Qed.

Lemma needs_quote_false_no_cr (f : text) : needs_quote f = false -> CR ∉ f.
Proof.
  induction f as [|c f IH]; intros H; [apply not_elem_of_nil|].
  unfold needs_quote in H. simpl in H. apply orb_false_iff in H as [H1 H2].
  intros Hin. apply elem_of_cons in Hin as [<-|Hin].
  - unfold is_cr in H1. rewrite bool_decide_true in H1 by done.
    by rewrite !orb_true_r in H1.
  - by apply IH.
Qed.

Lemma unl_write_field (f : text) : unl (write_field f) = write_field (unl f).
Proof.
  unfold write_field. rewrite needs_quote_unl.
  destruct (needs_quote f) eqn:Hq.
  - rewrite unl_cons_ncr by done. rewrite unl_app by (intros _; discriminate).
    rewrite unl_escape. done.
  - reflexivity.
Qed.

Lemma write_field_last (f : text) : last (write_field f) = Some CR -> False.
Proof.
  unfold write_field. destruct (needs_quote f) eqn:Hq.
  - rewrite app_comm_cons, last_snoc. discriminate.
  - intros Hl. apply (needs_quote_false_no_cr f Hq).
    apply last_Some_elem_of. exact Hl.
Qed.

Lemma unl_join_fields (fs : list text) : unl (join_fields fs) = join_fields (map unl fs).
Proof.
  induction fs as [|f fs IH]; [done|].
  destruct fs as [|g fs].
  - simpl. apply unl_write_field.
  - change (join_fields (f :: g :: fs)) with (write_field f ++ COMMA :: join_fields (g :: fs)).
    rewrite unl_app by (intros _; discriminate).
    rewrite unl_cons_ncr by done. rewrite IH, unl_write_field. done.
Qed.

Lemma join_fields_last (fs : list text) : last (join_fields fs) = Some CR -> False.
Proof.
  induction fs as [|f fs IH]; [discriminate|].
  destruct fs as [|g fs].
  - apply write_field_last.
  - change (join_fields (f :: g :: fs)) with (write_field f ++ COMMA :: join_fields (g :: fs)).
    intros Hl. rewrite last_app_cons in Hl.
    apply last_cons_Some_ne in Hl; [|done]. by apply IH.
Qed.

Lemma unl_write_row (fs : list text) (rest : text) :
  unl (write_row fs ++ rest) = write_row_lf (map unl fs) ++ unl rest.
Proof.
  unfold write_row, write_row_lf, write_row_body. rewrite <- !app_assoc.
  rewrite unl_app by (intros _; discriminate).
  cbn [app]. rewrite unl_cr_lf. f_equal.
  destruct (bool_decide (fs = [[]])) eqn:E1; destruct (bool_decide (map unl fs = [[]])) eqn:E2.
  - done.
  - apply bool_decide_eq_true in E1. apply bool_decide_eq_false in E2. subst. done.
  - apply bool_decide_eq_false in E1. apply bool_decide_eq_true in E2. exfalso. apply E1.
    destruct fs as [|f [|g fs]]; try discriminate. simpl in E2. simplify_eq.
    rewrite (proj1 (unl_nil f) E2). reflexivity.
  - apply unl_join_fields.
Qed.

End WriterLemmas.

Section ReaderLemmas.
Import CsvWrite CsvRead.

Lemma tok_app (a b : text) : tok (a ++ b) = tok a ++ tok b.
Proof. induction a as [|c a IH]; [done|]. simpl. case_match; by rewrite IH. Qed.

Lemma tok_nlf (c : ascii) (t : text) : c <> LF -> tok (c :: t) = Ch c :: tok t.
Proof. intros Hc. simpl. by rewrite is_lf_false. Qed.

Lemma read_ch (r r' : rdr) (c : ascii) (ts : list token) :
  process r (Ch c) = Ok r' -> read_tokens r (Ch c :: ts) = read_tokens r' ts.
Proof. intros H. simpl. by rewrite H. Qed.

Lemma read_eol_cont (r r' : rdr) (ts : list token) :
  process r EOL = Ok r' -> st r' <> START_RECORD ->
  read_tokens r (EOL :: ts) = read_tokens r' ts.
Proof. intros H Hs. simpl. rewrite H. simpl. by destruct (st r'). Qed.

Lemma read_eol_emit (r r' : rdr) (ts : list token) :
  process r EOL = Ok r' -> st r' = START_RECORD ->
  read_tokens r (EOL :: ts) = (let? recs := read_tokens rdr0 ts in Ok (fields r' :: recs)).
Proof. intros H Hs. simpl. rewrite H. simpl. by rewrite Hs. Qed.

Lemma add_char_ok (s0 s : pstate) (acc : text) (fs : list text) (c : ascii) :
  (N.of_nat (length acc) < field_limit)%N ->
  add_char (mkRdr s0 acc fs) c s = Ok (mkRdr s (acc ++ [c]) fs).
Proof.
  intros Hl. unfold add_char. simpl. rewrite bool_decide_false; [done|]. lia.
Qed.

(** A character written without quoting. *)
Definition plain (c : ascii) : Prop := c <> COMMA /\ c <> QUOTE /\ c <> CR /\ c <> LF.

Lemma needs_quote_false_cons (c : ascii) (f : text) :
  needs_quote (c :: f) = false -> plain c /\ needs_quote f = false.
Proof.
  unfold needs_quote. simpl. intros H. apply orb_false_iff in H as [H1 H2].
  split; [|done]. unfold is_comma, is_quote, is_cr, is_lf in H1.
  repeat (apply orb_false_iff in H1 as [H1 ?]). split_and!.
  - by apply (bool_decide_eq_false_1 (c = COMMA)).
  - by apply (bool_decide_eq_false_1 (c = QUOTE)).
  - by apply (bool_decide_eq_false_1 (c = CR)).
  - by apply (bool_decide_eq_false_1 (c = LF)).
Qed.

Lemma plain_bools (c : ascii) :
  plain c -> is_comma c = false /\ is_quote c = false /\ is_cr c = false /\ is_lf c = false.
Proof. intros (?&?&?&?). unfold is_comma, is_quote, is_cr, is_lf. by rewrite !bool_decide_false. Qed.

Lemma read_in_field (g acc : text) (fs : list text) (ts : list token) :
  needs_quote g = false -> (N.of_nat (length acc + length g) <= field_limit)%N ->
  read_tokens (mkRdr IN_FIELD acc fs) (tok g ++ ts) =
  read_tokens (mkRdr IN_FIELD (acc ++ g) fs) ts.
Proof.
  revert acc. induction g as [|c g IH]; intros acc Hq Hl.
  - by rewrite app_nil_r.
  - apply needs_quote_false_cons in Hq as [Hp Hq].
    pose proof (plain_bools c Hp) as (Hc1&Hc2&Hc3&Hc4).
    rewrite tok_nlf by apply Hp. cbn [app].
    rewrite (read_ch _ (mkRdr IN_FIELD (acc ++ [c]) fs)).
    + rewrite IH; [by rewrite <- app_assoc|done|rewrite length_app; simpl in *; lia].
    + unfold process. simpl st. rewrite Hc3, Hc4, Hc1. simpl.
      apply add_char_ok. simpl in Hl. lia.
Qed.

Lemma read_in_quoted (f acc : text) (fs : list text) (ts : list token) :
  CR ∉ f -> (N.of_nat (length acc + length f) <= field_limit)%N ->
  read_tokens (mkRdr IN_QUOTED_FIELD acc fs) (tok (escape f) ++ ts) =
  read_tokens (mkRdr IN_QUOTED_FIELD (acc ++ f) fs) ts.
Proof.
  revert acc. induction f as [|c f IH]; intros acc Hcr Hl.
  - by rewrite app_nil_r.
  - assert (CR ∉ f) as Hcr' by (intros Hin; apply Hcr; by right).
    assert (c <> CR) as Hc by (intros ->; apply Hcr; left).
    simpl in Hl.
    assert (IH' : forall a, length a = S (length acc) ->
              read_tokens (mkRdr IN_QUOTED_FIELD a fs) (tok (escape f) ++ ts) =
              read_tokens (mkRdr IN_QUOTED_FIELD (a ++ f) fs) ts).
    { intros a Ha. apply IH; [done|lia]. }
    destruct (decide (c = QUOTE)) as [->|Hq].
    + rewrite escape_quote. rewrite !tok_nlf by done. cbn [app].
      rewrite (read_ch _ (mkRdr QUOTE_IN_QUOTED_FIELD acc fs)) by reflexivity.
      rewrite (read_ch _ (mkRdr IN_QUOTED_FIELD (acc ++ [QUOTE]) fs)).
      * rewrite IH' by (rewrite length_app; simpl; lia). by rewrite <- app_assoc.
      * unfold process. simpl st. change (is_quote QUOTE) with true. cbv iota.
        apply add_char_ok. lia.
    + rewrite escape_nq by done.
      destruct (decide (c = LF)) as [->|Hlf].
      * cbn [tok]. change (is_lf LF) with true. cbv iota. cbn [app].
        rewrite (read_ch _ (mkRdr IN_QUOTED_FIELD (acc ++ [LF]) fs)).
        -- rewrite (read_eol_cont _ (mkRdr IN_QUOTED_FIELD (acc ++ [LF]) fs)) by done.
           rewrite IH' by (rewrite length_app; simpl; lia). by rewrite <- app_assoc.
        -- unfold process. simpl st. change (is_quote LF) with false. cbv iota.
           apply add_char_ok. lia.
      * rewrite tok_nlf by done. cbn [app].
        rewrite (read_ch _ (mkRdr IN_QUOTED_FIELD (acc ++ [c]) fs)).
        -- rewrite IH' by (rewrite length_app; simpl; lia). by rewrite <- app_assoc.
        -- unfold process. simpl st. unfold is_quote. rewrite bool_decide_false by done.
           apply add_char_ok. lia.
Qed.

Definition good_field (f : text) : Prop := (CR ∉ f) /\ (N.of_nat (length f) <= field_limit)%N.

Lemma read_field (f : text) (acc : list text) (ts : list token) :
  good_field f ->
  exists s, s ∈ [START_FIELD; IN_FIELD; QUOTE_IN_QUOTED_FIELD] /\
    read_tokens (mkRdr START_FIELD [] acc) (tok (write_field f) ++ ts) =
    read_tokens (mkRdr s f acc) ts.
Proof.
  intros [Hcr Hl]. unfold write_field. destruct (needs_quote f) eqn:Hq.
  - exists QUOTE_IN_QUOTED_FIELD. split; [by repeat constructor|].
    rewrite tok_nlf by done. rewrite tok_app. cbn [app]. rewrite <- app_assoc.
    rewrite (read_ch _ (mkRdr IN_QUOTED_FIELD [] acc)) by reflexivity.
    rewrite read_in_quoted by (done || simpl; lia). simpl app.
    by apply read_ch.
  - destruct f as [|c g].
    + exists START_FIELD. split; [by repeat constructor|]. done.
    + exists IN_FIELD. split; [by repeat constructor|].
      apply needs_quote_false_cons in Hq as [Hp Hq].
      pose proof (plain_bools c Hp) as (Hc1&Hc2&Hc3&Hc4).
      rewrite tok_nlf by apply Hp. cbn [app].
      rewrite (read_ch _ (mkRdr IN_FIELD [c] acc)).
      * rewrite read_in_field; [done|done|simpl in *; lia].
      * unfold process. simpl st. unfold start_field. rewrite Hc3, Hc4, Hc2, Hc1.
        apply (add_char_ok START_FIELD IN_FIELD [] acc c). unfold field_limit. simpl. lia.
Qed.

Lemma field_end_comma (s : pstate) (f : text) (acc : list text) :
  s ∈ [START_FIELD; IN_FIELD; QUOTE_IN_QUOTED_FIELD] ->
  process (mkRdr s f acc) (Ch COMMA) = Ok (mkRdr START_FIELD [] (acc ++ [f])).
Proof. intros Hs. repeat (apply elem_of_cons in Hs as [->|Hs]; [reflexivity|]). inversion Hs. Qed.

Lemma field_end_lf (s : pstate) (f : text) (acc : list text) :
  s ∈ [START_FIELD; IN_FIELD; QUOTE_IN_QUOTED_FIELD] ->
  process (mkRdr s f acc) (Ch LF) = Ok (mkRdr EAT_CRNL [] (acc ++ [f])).
Proof. intros Hs. repeat (apply elem_of_cons in Hs as [->|Hs]; [reflexivity|]). inversion Hs. Qed.

Lemma read_join (fs acc : list text) (ts : list token) :
  fs <> [] -> Forall good_field fs ->
  read_tokens (mkRdr START_FIELD [] acc) (tok (join_fields fs ++ [LF]) ++ ts) =
  (let? recs := read_tokens rdr0 ts in Ok ((acc ++ fs) :: recs)).
Proof.
  revert acc. induction fs as [|f fs IH]; intros acc Hne Hg; [done|].
  apply Forall_cons in Hg as [Hf Hg].
  destruct fs as [|g fs].
  - simpl join_fields. rewrite tok_app, <- app_assoc.
    destruct (read_field f acc (tok [LF] ++ ts) Hf) as (s & Hs & ->).
    cbn [tok]. change (is_lf LF) with true. cbv iota. cbn [app].
    rewrite (read_ch _ (mkRdr EAT_CRNL [] (acc ++ [f]))) by (by apply field_end_lf).
    by rewrite (read_eol_emit _ (mkRdr START_RECORD [] (acc ++ [f]))).
  - change (join_fields (f :: g :: fs)) with (write_field f ++ COMMA :: join_fields (g :: fs)).
    rewrite <- app_assoc, tok_app, <- app_assoc.
    destruct (read_field f acc (tok ((COMMA :: join_fields (g :: fs)) ++ [LF]) ++ ts) Hf)
      as (s & Hs & ->).
    rewrite <- app_comm_cons, tok_nlf by done. cbn [app].
    rewrite (read_ch _ (mkRdr START_FIELD [] (acc ++ [f]))) by (by apply field_end_comma).
    rewrite IH by done. by rewrite <- app_assoc.
Qed.

Lemma read_tokens_same_ch (r1 r2 : rdr) (c : ascii) (ts : list token) :
  process r1 (Ch c) = process r2 (Ch c) ->
  read_tokens r1 (Ch c :: ts) = read_tokens r2 (Ch c :: ts).
Proof. intros H. simpl. by rewrite H. Qed.

Lemma join_fields_head (fs : list text) :
  fs <> [] -> fs <> [[]] -> Forall good_field fs ->
  exists c t, join_fields fs = c :: t /\ c <> CR /\ c <> LF.
Proof.
  intros Hne H1 Hg. destruct fs as [|f fs]; [done|].
  assert (exists u, join_fields (f :: fs) = write_field f ++ u) as [u Hu].
  { destruct fs; [exists []; by rewrite app_nil_r|]. eexists; reflexivity. }
  rewrite Hu. unfold write_field in *. destruct (needs_quote f) eqn:Hq.
  - exists QUOTE, (escape f ++ [QUOTE] ++ u).
    split; [by rewrite <- app_comm_cons, <- app_assoc|]. unfold QUOTE, CR, LF. split; discriminate.
  - destruct f as [|c g].
    + destruct fs as [|g fs]; [done|]. exists COMMA, (join_fields (g :: fs)).
      split; [by rewrite <- Hu|]. unfold COMMA, CR, LF. split; discriminate.
    + apply needs_quote_false_cons in Hq as [(?&?&?&?) _]. by exists c, (g ++ u).
Qed.

Lemma read_row (fs : list text) (ts : list token) :
  fs <> [] -> Forall good_field fs ->
  read_tokens rdr0 (tok (write_row_lf fs) ++ ts) =
  (let? recs := read_tokens rdr0 ts in Ok (fs :: recs)).
Proof.
  intros Hne Hg. unfold write_row_lf, write_row_body.
  case_bool_decide as E.
  - subst. reflexivity.
  - destruct (join_fields_head fs Hne E Hg) as (c & t & Hj & Hc1 & Hc2).
    assert (Hs : read_tokens rdr0 (tok (join_fields fs ++ [LF]) ++ ts) =
                 read_tokens (mkRdr START_FIELD [] []) (tok (join_fields fs ++ [LF]) ++ ts)).
    { rewrite Hj, <- app_comm_cons, tok_nlf by done. cbn [app].
      apply read_tokens_same_ch. unfold process. simpl st.
      rewrite (is_cr_false c), (is_lf_false c) by done. reflexivity. }
    rewrite Hs, read_join by done. done.
Qed.

Lemma read_all (L : list (list text)) :
  Forall (fun fs => fs <> [] /\ Forall good_field fs) L ->
  read_tokens rdr0 (tok (concat (map write_row_lf L))) = Ok L.
Proof.
  induction L as [|fs L IH]; intros HL; [reflexivity|].
  apply Forall_cons in HL as [[Hne Hg] HL].
  simpl. rewrite tok_app, read_row by done. by rewrite IH.
Qed.

Lemma last_rows_lf (L : list (list text)) :
  L <> [] -> last (concat (map write_row_lf L)) = Some LF.
Proof.
  induction L as [|fs L IH]; intros Hne; [done|].
  simpl. rewrite last_app. destruct L as [|g L].
  - simpl. unfold write_row_lf. by rewrite last_snoc.
  - rewrite IH by done. done.
Qed.

Lemma read_csv_rows (L : list (list text)) :
  L <> [] -> Forall (fun fs => fs <> [] /\ Forall good_field fs) L ->
  read_tokens rdr0 (tokens_of (concat (map write_row_lf L))) = Ok L.
Proof.
  intros Hne HL. unfold tokens_of. rewrite last_rows_lf by done.
  change (is_lf LF) with true. cbv iota. rewrite app_nil_r. by apply read_all.
Qed.

End ReaderLemmas.

Section RoundTrip.
Import CsvWrite CsvRead.

Lemma dict_set_fresh (k : string) (v : pyval) (d : list (string * pyval)) :
  k ∉ map fst d -> dict_set k v d = d ++ [(k, v)].
Proof.
  induction d as [|[k' v'] d IH]; intros Hk; [reflexivity|].
  simpl in *. rewrite bool_decide_false by (intros ->; apply Hk; left).
  rewrite IH; [reflexivity|]. intros Hin. apply Hk. by right.
Qed.

Lemma fold_dict_set_fresh {B} (g : B -> pyval) (l : list (string * B)) :
  forall d, NoDup (map fst d ++ map fst l) ->
  fold_left (fun d kv => dict_set kv.1 (g kv.2) d) l d = d ++ map (fun kv => (kv.1, g kv.2)) l.
Proof.
  induction l as [|[k b] l IH]; intros d Hnd; simpl.
  - by rewrite app_nil_r.
  - rewrite dict_set_fresh.
    + rewrite IH, <- app_assoc; [reflexivity|]. rewrite map_app, <- app_assoc. exact Hnd.
    + intros Hin. apply NoDup_app in Hnd as (_ & Hd & _). apply (Hd k Hin). simpl. left.
Qed.

Lemma mk_row_full (hdr : list string) (r : list text) :
  NoDup hdr -> length r = length hdr ->
  mk_row hdr r = mkRow (map (fun kv => (kv.1, PStr (str kv.2))) (zip hdr r)) None.
Proof.
  intros Hnd Hl. unfold mk_row.
  rewrite (fold_dict_set_fresh (fun t => PStr (str t))).
  - rewrite Hl, drop_all. simpl. rewrite bool_decide_false by lia. reflexivity.
  - simpl. rewrite fst_zip by lia. exact Hnd.
Qed.

Lemma FIELDNAMES_NoDup : NoDup FIELDNAMES.
Proof. apply (bool_decide_unpack _). vm_compute. exact I. Qed.

Lemma serialize_ok (rows : list row) :
  Forall (fun r => row_ok r /\ forallb str_ok (vals r) = true) rows ->
  serialize rows = (Ok tt, write_row (map txt FIELDNAMES) ++
                           concat (map (fun r => write_row (map render (vals r))) rows)).
Proof.
  intros Hok. unfold serialize.
  assert (write_rows rows = (Ok tt, concat (map (fun r => write_row (map render (vals r))) rows)))
    as ->; [|reflexivity].
  induction rows as [|r rows IH]; [reflexivity|].
  apply Forall_cons in Hok as [[[Hr Hk] Hs] Hok]. simpl.
  unfold dict_to_list. rewrite Hr.
  assert (existsb (fun k => negb (bool_decide (k ∈ FIELDNAMES))) (map fst (cells r)) = false) as ->.
  { apply not_true_iff_false. intros Hex. apply existsb_exists in Hex as (k & Hin & Hb).
    rewrite Forall_forall in Hk. specialize (Hk k (proj2 (list_elem_of_In _ _) Hin)).
    rewrite bool_decide_true in Hb by exact Hk. discriminate. }
  unfold vals in Hs. rewrite Hs.
  rewrite IH by exact Hok. reflexivity.
Qed.

Lemma dict_to_list_ok (r : row) (vs : list pyval) :
  dict_to_list r = Ok vs -> row_ok r /\ vs = vals r.
Proof.
  unfold dict_to_list, row_ok, vals. destruct (rest r); [discriminate|].
  destruct (existsb _ _) eqn:E; [discriminate|]. intros H. injection H as <-.
  split; [|reflexivity]. split; [reflexivity|].
  apply Forall_forall. intros k Hk. destruct (decide (k ∈ FIELDNAMES)) as [Hin|Hnin]; [exact Hin|].
  exfalso. apply not_true_iff_false in E. apply E, existsb_exists. exists k.
  split; [by apply list_elem_of_In|]. by rewrite bool_decide_false.
Qed.

Lemma write_rows_ok_inv (rows : list row) :
  (write_rows rows).1 = Ok tt ->
  Forall (fun r => row_ok r /\ forallb str_ok (vals r) = true) rows.
Proof.
  induction rows as [|r rows IH]; [constructor|]. simpl.
  destruct (dict_to_list r) as [vs|e] eqn:E; [|discriminate].
  destruct (dict_to_list_ok r vs E) as [Hr ->].
  destruct (forallb str_ok (vals r)) eqn:Hs; [|discriminate].
  destruct (write_rows rows) as [st t] eqn:W. simpl. intros Hst.
  constructor; [split; [exact Hr|exact Hs]|]. apply IH. rewrite ?W. exact Hst.
Qed.

Lemma save_ok_inv (l : ledger) (m : fs) :
  (save l NoFault m).1 = Ok tt ->
  txt (pname (ledger_path l)) <> [] /\
  Forall (fun r => row_ok r /\ forallb str_ok (vals r) = true) (ledger_rows l).
Proof.
  unfold save. destruct (with_suffix (ledger_path l) ".tmp") as [tmp|e] eqn:Hw; [|discriminate].
  assert (Hn : txt (pname (ledger_path l)) <> []).
  { unfold with_suffix in Hw. case_bool_decide; [discriminate|assumption]. }
  pose proof (write_rows_ok_inv (ledger_rows l)) as Hinv.
  unfold serialize. destruct (write_rows (ledger_rows l)) as [wst t] eqn:W.
  destruct wst as [[]|e]; simpl; [|discriminate]. intros _.
  split; [exact Hn|]. apply Hinv. rewrite ?W. reflexivity.
Qed.

Lemma unl_rows (hdr : list text) (rows : list (list text)) :
  unl (write_row hdr ++ concat (map write_row rows)) =
  concat (map write_row_lf (map (map unl) (hdr :: rows))).
Proof.
  revert hdr. induction rows as [|fs rows IH]; intros hdr.
  - simpl. rewrite unl_write_row. simpl. by rewrite !app_nil_r.
  - rewrite unl_write_row. simpl concat. rewrite IH. reflexivity.
Qed.

Lemma good_unl (t : text) :
  (N.of_nat (length t) <= field_limit)%N -> good_field (unl t).
Proof.
  intros Hl. split; [apply unl_not_cr|].
  pose proof (unl_length t). lia.
Qed.

Lemma read_saved (rows : list row) :
  Forall fits rows ->
  read_csv (write_row (map txt FIELDNAMES) ++
            concat (map (fun r => write_row (map render (vals r))) rows)) =
  Ok (map (map unl) (map txt FIELDNAMES :: map (fun r => map render (vals r)) rows)).
Proof.
  intros Hf. unfold read_csv.
  rewrite <- (map_map (fun r => map render (vals r)) write_row), unl_rows.
  apply read_csv_rows; [done|]. constructor.
  - split; [done|]. unfold good_field. apply (bool_decide_unpack _). vm_compute. exact I.
  - apply Forall_forall. intros fs Hin.
    apply list_elem_of_In, in_map_iff in Hin as (vs & <- & Hin).
    apply in_map_iff in Hin as (r & <- & Hin).
    apply list_elem_of_In in Hin. rewrite Forall_forall in Hf. specialize (Hf r Hin).
    split; [unfold vals; destruct FIELDNAMES eqn:E; [discriminate|done]|].
    rewrite Forall_forall. intros f Hf'.
    apply list_elem_of_In, in_map_iff in Hf' as (t & <- & Ht).
    apply in_map_iff in Ht as (v & <- & Hv). apply good_unl.
    unfold fits in Hf. rewrite Forall_forall in Hf. apply Hf, list_elem_of_In, Hv.
Qed.

End RoundTrip.

Section Reload.
Import CsvWrite CsvRead.

Lemma dict_reader_saved (rows : list row) :
  dict_reader (map (map unl) (map txt FIELDNAMES :: map (fun r => map render (vals r)) rows)) =
  map reloaded rows.
Proof.
  rewrite map_cons. unfold dict_reader.
  assert (Hh : map str (map unl (map txt FIELDNAMES)) = FIELDNAMES) by reflexivity.
  rewrite Hh. induction rows as [|r rows IH]; [reflexivity|].
  rewrite !map_cons, filter_cons_True.
  - rewrite map_cons, IH. apply (f_equal2 cons); [|reflexivity].
    rewrite mk_row_full by (apply FIELDNAMES_NoDup || (unfold vals; rewrite !length_map; reflexivity)).
    unfold vals. rewrite !map_map. unfold reloaded. f_equal.
  - unfold vals. simpl. exact I.
Qed.

Lemma with_suffix_ok (p : path) (sfx : string) :
  txt (pname p) <> [] -> exists q, with_suffix p sfx = Ok q.
Proof. intros H. unfold with_suffix. rewrite bool_decide_false by exact H. by eexists. Qed.

Lemma save_load (l : ledger) (m : fs) :
  (save l NoFault m).1 = Ok tt -> Forall fits (ledger_rows l) ->
  load (ledger_path l) (save l NoFault m).2 =
    Ok (load_rows (map reloaded (ledger_rows l)), map reloaded (ledger_rows l)).
Proof.
  intros Hs Hf. destruct (save_ok_inv l m Hs) as [Hn Hok]. unfold save.
  destruct (with_suffix_ok (ledger_path l) ".tmp" Hn) as [tmp ->].
  rewrite serialize_ok by exact Hok.
  cbv beta iota zeta delta [snd]. unfold load, fs_upd. rewrite bool_decide_true by reflexivity.
  cbv beta iota.
  rewrite read_saved by exact Hf. unfold res_bind. by rewrite dict_reader_saved.
Qed.

Lemma save_init (l : ledger) (m : fs) :
  (save l NoFault m).1 = Ok tt -> Forall fits (ledger_rows l) ->
  init (ledger_path l) true (save l NoFault m).2 =
    Ok (mkLedger (ledger_path l) (load_rows (map reloaded (ledger_rows l)))
                 (map reloaded (ledger_rows l))).
Proof.
  intros Hs Hf. pose proof (save_load l m Hs Hf) as H2.
  unfold init. simpl. by rewrite H2.
Qed.

Lemma dict_get_map (f : string -> pyval) (k : string) (ks : list string) (d : pyval) :
  k ∈ ks -> dict_get k (map (fun k => (k, f k)) ks) d = f k.
Proof.
  induction ks as [|k' ks IH]; intros Hin; [by apply not_elem_of_nil in Hin|].
  simpl. case_bool_decide as E; [by subst|].
  apply elem_of_cons in Hin as [->|Hin]; [done|by apply IH].
Qed.

Lemma row_get_reloaded (r : row) (k : string) (d : pyval) :
  k ∈ FIELDNAMES -> row_get k (reloaded r) d = PStr (str (unl (render (row_get k r (PStr ""))))).
Proof.
  intros Hk. unfold row_get, reloaded. cbn [cells].
  by apply (dict_get_map (fun k => PStr (str (unl (render (dict_get k (cells r) (PStr ""))))))).
Qed.





Lemma count_reloaded (rows : list row) :
  Forall (fun r => row_get "processed_date" r (PStr "") = row_get "discovered_date" r (PStr "")) rows ->
  length (filter (fun r => bool_decide (row_get "processed_date" r PNone =
                                        row_get "discovered_date" r PNone))
                 (map reloaded rows)) = length rows.
Proof.
  induction rows as [|r rows IH]; intros H; [reflexivity|].
  apply Forall_cons in H as [Hr H]. simpl map. rewrite filter_cons_True.
  - simpl. by rewrite IH.
  - rewrite !row_get_reloaded by (unfold FIELDNAMES; repeat (first [left | right])).
    rewrite Hr. by apply bool_decide_pack.
Qed.

Lemma entry_of_row_ok pd mn a p li now : row_ok (entry_of pd mn a p li now).
Proof. split; [reflexivity|]. apply (bool_decide_unpack _). vm_compute. exact I. Qed.

End Reload.



(** When the temporary path differs from the ledger path, a [save] that
    does not succeed leaves the ledger file as it was. *)
Lemma save_keeps_durable_file (l : ledger) (flt : fault) (m : fs) :
  (forall tmp, with_suffix (ledger_path l) ".tmp" = Ok tmp -> tmp <> ledger_path l) ->
  (save l flt m).1 <> Ok tt ->
  (save l flt m).2 (ledger_path l) = m (ledger_path l).
Proof.
  intros Htmp Hfail. unfold save in *.
  destruct (with_suffix (ledger_path l) ".tmp") as [tmp|e] eqn:Hw; [|reflexivity].
  specialize (Htmp tmp eq_refl).
  assert (Hu : forall f, fs_upd m tmp f (ledger_path l) = m (ledger_path l)).
  { intros f. unfold fs_upd. rewrite bool_decide_false by (intros E; apply Htmp; by rewrite E). reflexivity. }
  destruct (serialize (ledger_rows l)) as [wst content].
  destruct flt as [| |k|]; try reflexivity; try apply Hu.
  - destruct wst as [[]|e]; [by exfalso; apply Hfail|apply Hu].
  - destruct wst as [[]|e]; apply Hu.
Qed.

(* ================================================================== *)
(** * Claims about the ledger *)







(** C10. [get_new_papers_count] counts the rows whose [processed_date]
    equals their [discovered_date]. [add_entry] stamps both with the same
    [now], and save and reload keep them equal: a ledger freshly loaded from
    the file a successful [save()] wrote for a ledger whose N rows all have
    equal dates reports N (written values of at most 131072 characters). *)
Theorem new_papers_count_reloaded (l : ledger) (m : fs) :
  (save l NoFault m).1 = Ok tt -> Forall fits (ledger_rows l) ->
  Forall (fun r => row_get "processed_date" r (PStr "") = row_get "discovered_date" r (PStr ""))
         (ledger_rows l) ->
  exists l', init (ledger_path l) true (save l NoFault m).2 = Ok l' /\
             get_new_papers_count l' = length (ledger_rows l).
Proof.
  intros Hs Hf Hd. pose proof (save_init l m Hs Hf) as H.
  eexists. split; [exact H|]. unfold get_new_papers_count. simpl.
  by apply count_reloaded.
Qed.

Lemma new_papers_count_reloaded_witness :
  exists l', init ex_path true (save ex_ledger NoFault empty_fs).2 = Ok l' /\
             get_new_papers_count l' = 1.
Proof.
  apply (new_papers_count_reloaded ex_ledger empty_fs).
  - vm_compute. reflexivity.
  - unfold fits, vals. apply (bool_decide_unpack _). vm_compute. exact I.
  - apply (bool_decide_unpack _). vm_compute. exact I.
Defined.

(** C2 (code bug). [save] writes to [ledger_path.with_suffix(".tmp")] and
    then renames; for a ledger file that is itself named [*.tmp] the
    temporary path is the ledger path, so opening it for writing truncates
    the durable copy: a write failure after 100 characters leaves a ledger
    file holding only those 100 characters instead of the last-known-good
    table. *)
Theorem save_failure_truncates_tmp_ledger :
  let p := mkPath ["data"] "ledger.tmp" in
  let l := mkLedger p (processed_ids ex_ledger) (ledger_rows ex_ledger) in
  let m := (save l NoFault empty_fs).2 in
  with_suffix p ".tmp" = Ok p /\
  (save l NoFault empty_fs).1 = Ok tt /\
  (save l (FailWrite 100) m).1 = Err OSError /\
  (exists full, m p = Some (FText full) /\ 100 < length full /\
                (save l (FailWrite 100) m).2 p = Some (FText (take 100 full))).
Proof.
  cbv zeta. split; [reflexivity|]. split; [reflexivity|]. split; [reflexivity|].
  eexists. split; [reflexivity|]. split; [vm_compute; lia|]. reflexivity.
Qed.

(** C7 (amended). With the parent directory created, constructing a
    [PaperLedger] when no file exists gives an empty ledger. When the file
    exists, construction raises exactly when reading it fails: bytes that
    are not UTF-8, or a csv error (a field longer than 131072 characters);
    any other content is accepted and the ledger holds the rows
    [csv.DictReader] returns, however few. *)
Theorem init_load_outcomes (p : path) (m : fs) :
  (m p = None ->
     init p true m = Ok (mkLedger p [] []) /\
     forall X, is_processed (mkLedger p [] []) X = false) /\
  (m p = Some FUndecodable -> init p true m = Err UnicodeDecodeError) /\
  (forall t e, m p = Some (FText t) -> CsvRead.read_csv t = Err e -> init p true m = Err e) /\
  (forall t recs, m p = Some (FText t) -> CsvRead.read_csv t = Ok recs ->
     init p true m = Ok (mkLedger p (load_rows (dict_reader recs)) (dict_reader recs))).
Proof.
  unfold init, load. simpl. split; [|split; [|split]].
  - intros H. rewrite H. split; [reflexivity|]. intros X. unfold is_processed. simpl.
    reflexivity.
  - intros H. by rewrite H.
  - intros t e H He. by rewrite H, He.
  - intros t recs H Hr. by rewrite H, Hr.
Qed.

(** C7 counterexample: a ledger file cut short inside its header row loads
    without an error, as a ledger with no rows and no processed ids. *)
Lemma truncated_ledger_loads_empty :
  let m := fs_upd empty_fs ex_path (Some (FText (txt "canonical_id,sou"))) in
  m ex_path <> None /\
  init ex_path true m = Ok (mkLedger ex_path [] []).
Proof. split; [discriminate|reflexivity]. Qed.

Lemma init_load_outcomes_witness : init ex_path true empty_fs = Ok (mkLedger ex_path [] []).
Proof. apply (proj1 (init_load_outcomes ex_path empty_fs)). reflexivity. Defined.

Section NormaliseLemmas.
Import Normalise.
Local Open Scope N_scope.

Variable nfd : list N -> list N.
Variable is_Mn : N -> bool.
Variable lower : list N -> list N.
Variable is_space : N -> bool.
Hypothesis HU : unicode_laws nfd is_Mn lower is_space.

Abbreviation sp := is_space.
Abbreviation kp := (kept nfd is_Mn lower is_space).
Abbreviation cgo := (collapse_go is_space).
Abbreviation lst := (lstrip is_space).
Abbreviation rst := (rstrip is_space).

Lemma sp32 : sp 32 = true.
Proof. rewrite (law_space_ascii _ _ _ _ HU) by lia. reflexivity. Qed.

Lemma kp_nil : kp [] = [].
Proof.
  pose proof (law_kept_app _ _ _ _ HU [] []) as H. simpl in H.
  destruct (kp []) as [|x l] eqn:E; [reflexivity|].
  apply (f_equal length) in H. simpl in H. rewrite length_app in H. simpl in H. lia.
Qed.

Lemma kp_concat (t : list N) : kp t = concat (map (fun c => kp [c]) t).
Proof.
  induction t as [|c t IH]; [apply kp_nil|].
  change (c :: t) with ([c] ++ t). rewrite (law_kept_app _ _ _ _ HU), IH. reflexivity.
Qed.

Lemma kp_ascii (c : N) :
  c < 128 -> kp [c] = if keep is_space (ascii_lower c) then [ascii_lower c] else [].
Proof.
  intros Hc. unfold kept. rewrite (law_nfd_ascii _ _ _ _ HU) by exact Hc.
  simpl. rewrite (law_Mn_ascii _ _ _ _ HU) by exact Hc. simpl.
  rewrite (law_lower_ascii _ _ _ _ HU) by exact Hc. reflexivity.
Qed.

Lemma normalise_kp (t : list N) : normalise_title nfd is_Mn lower is_space t = strip is_space (collapse is_space (kp t)).
Proof. destruct t as [|c t]; [by rewrite kp_nil|reflexivity]. Qed.

(** Characters of the output. *)
Definition out_char (c : N) : bool := is_az c || is_09 c || (c =? 32).

Lemma ascii_lower_out (c : N) : out_char c = true -> c < 128 /\ ascii_lower c = c.
Proof.
  unfold out_char, is_az, is_09, ascii_lower. intros H.
  repeat match goal with
  | H : context [?a <=? ?b] |- _ => destruct (N.leb_spec a b)
  | |- context [?a <=? ?b] => destruct (N.leb_spec a b)
  | H : context [?a =? ?b] |- _ => destruct (N.eqb_spec a b)
  end; simpl in *; try discriminate; split; lia.
Qed.


Lemma in_lstrip (c : N) (y : list N) : In c (lst y) -> In c y.
Proof. induction y as [|d y IH]; [done|]. simpl. destruct (sp d); [intros; right; auto|done]. Qed.

Lemma in_rstrip (c : N) (y : list N) : In c (rst y) -> In c y.
Proof.
  induction y as [|d y IH]; [done|]. simpl.
  destruct (rst y) as [|e r]; [destruct (sp d); simpl; [done|intuition]|].
  intros [->|H]; [by left|right; apply IH, H].
Qed.

Lemma in_collapse (c : N) (b : bool) (x : list N) :
  In c (cgo b x) -> (In c x /\ sp c = false) \/ c = 32.
Proof.
  revert b. induction x as [|d x IH]; intros b; [done|]. simpl.
  destruct (sp d) eqn:E.
  - intros H. assert (H' : In c (cgo true x) \/ c = 32) 
      by (destruct b; simpl in H; [left; exact H|destruct H as [<-|H]; [right; reflexivity|left; exact H]]).
    destruct H' as [H' | ->]; [|by right].
    destruct (IH true H') as [[? ?]|?]; [left; auto|by right].
  - intros [<-|H]; [by left; auto|]. destruct (IH false H) as [[? ?]|?]; [left; auto|by right].
Qed.

Lemma out_chars (t : list N) :
  Forall (fun c => out_char c = true) (strip is_space (collapse is_space (kp t))).
Proof.
  apply Forall_forall. intros c Hc. apply list_elem_of_In in Hc.
  apply in_rstrip, in_lstrip, in_collapse in Hc as [[Hin Hs]| ->]; [|reflexivity].
  unfold kept in Hin. apply filter_In in Hin as [_ Hk].
  unfold keep in Hk. unfold out_char. rewrite Hs in Hk.
  destruct (is_az c), (is_09 c); done.
Qed.


Lemma lstrip_true_false (l : list N) : lst (cgo true l) = lst (cgo false l).
Proof.
  destruct l as [|c l]; [reflexivity|]. simpl.
  destruct (sp c) eqn:E; simpl; [by rewrite sp32|by rewrite E].
Qed.


Lemma rstrip_nil_all (l : list N) : rst l = [] -> forallb sp l = true.
Proof.
  induction l as [|c l IH]; [reflexivity|]. simpl.
  destruct (rst l) as [|d r] eqn:E; [|discriminate].
  destruct (sp c); [intros _; simpl; by apply IH|discriminate].
Qed.

Lemma all_sp_rstrip (l : list N) : forallb sp l = true -> rst l = [].
Proof.
  induction l as [|c l IH]; [reflexivity|]. simpl. intros H.
  apply andb_prop in H as [Hc Hl]. rewrite IH by exact Hl. by rewrite Hc.
Qed.

Lemma all_sp_lstrip (l : list N) : forallb sp l = true -> lst l = [].
Proof.
  induction l as [|c l IH]; [reflexivity|]. simpl. intros H.
  apply andb_prop in H as [Hc Hl]. rewrite Hc. by apply IH.
Qed.

Lemma collapse_true_all (l : list N) : forallb sp l = true -> cgo true l = [].
Proof.
  induction l as [|c l IH]; [reflexivity|]. simpl. intros H.
  apply andb_prop in H as [Hc Hl]. rewrite Hc. by apply IH.
Qed.










(** Whitespace. *)
Fixpoint endst (b : bool) (l : list N) : bool :=
  match l with [] => b | c :: l' => endst (sp c) l' end.

Lemma collapse_app (b : bool) (x y : list N) : cgo b (x ++ y) = cgo b x ++ cgo (endst b x) y.
Proof.
  revert b. induction x as [|c x IH]; intros b; [reflexivity|]. simpl.
  destruct (sp c); [destruct b|]; simpl; by rewrite IH.
Qed.

Lemma collapse_true_sp (w y : list N) : forallb sp w = true -> cgo true (w ++ y) = cgo true y.
Proof.
  induction w as [|c w IH]; intros H; [reflexivity|]. simpl in *.
  apply andb_prop in H as [Hc Hw]. rewrite Hc. by apply IH.
Qed.

Lemma collapse_run (b : bool) (w y : list N) :
  w <> [] -> forallb sp w = true ->
  cgo b (w ++ y) = (if b then [] else [32]) ++ cgo true y.
Proof.
  destruct w as [|c w]; [done|]. intros _ H. simpl in *.
  apply andb_prop in H as [Hc Hw]. rewrite Hc, collapse_true_sp by exact Hw.
  by destruct b.
Qed.

Lemma rstrip_app_sp (u w : list N) : forallb sp w = true -> rst (u ++ w) = rst u.
Proof.
  intros Hw. induction u as [|c u IH]; [by apply all_sp_rstrip|]. simpl. by rewrite IH.
Qed.

Lemma lstrip_app (y w : list N) : lst (y ++ w) = match lst y with [] => lst w | r => r ++ w end.
Proof.
  induction y as [|c y IH]; [reflexivity|]. simpl. by destruct (sp c).
Qed.

Lemma strip_app_sp (y w : list N) : forallb sp w = true -> strip is_space (y ++ w) = strip is_space y.
Proof.
  intros Hw. unfold strip. rewrite lstrip_app. destruct (lst y) as [|d r].
  - rewrite all_sp_lstrip by exact Hw. reflexivity.
  - by rewrite rstrip_app_sp.
Qed.

Lemma collapse_sp_all (b : bool) (w : list N) : forallb sp w = true -> forallb sp (cgo b w) = true.
Proof.
  revert b. induction w as [|c w IH]; intros b H; [reflexivity|]. simpl in *.
  apply andb_prop in H as [Hc Hw]. rewrite Hc. destruct b; [by apply IH|].
  simpl. rewrite sp32. by apply IH.
Qed.

Lemma post_lead (w z : list N) :
  forallb sp w = true -> strip is_space (collapse is_space (w ++ z)) = strip is_space (collapse is_space z).
Proof.
  intros Hw. destruct w as [|c w']; [reflexivity|].
  unfold collapse. rewrite collapse_run by done. unfold strip. simpl. rewrite sp32.
  by rewrite lstrip_true_false.
Qed.

Lemma post_trail (z w : list N) :
  forallb sp w = true -> strip is_space (collapse is_space (z ++ w)) = strip is_space (collapse is_space z).
Proof.
  intros Hw. unfold collapse. rewrite collapse_app. apply strip_app_sp, collapse_sp_all, Hw.
Qed.

Lemma ascii_lower_big (c : N) : 128 <= c -> ascii_lower c = c.
Proof. intros H. unfold ascii_lower. destruct (N.leb_spec 65 c), (N.leb_spec c 90); simpl; lia. Qed.

Lemma ascii_lower_small (c : N) : c < 128 -> ascii_lower c < 128.
Proof. intros H. unfold ascii_lower. destruct (N.leb_spec 65 c), (N.leb_spec c 90); simpl; lia. Qed.

Lemma kp_case (x y : N) : ascii_lower x = ascii_lower y -> kp [x] = kp [y].
Proof.
  intros H. destruct (N.ltb_spec x 128), (N.ltb_spec y 128).
  - rewrite !kp_ascii, H by assumption. reflexivity.
  - pose proof (ascii_lower_small x) as Hx. rewrite (ascii_lower_big y) in H by assumption. lia.
  - pose proof (ascii_lower_small y) as Hy. rewrite (ascii_lower_big x) in H by assumption. lia.
  - rewrite (ascii_lower_big x), (ascii_lower_big y) in H by assumption. by rewrite H.
Qed.

Lemma norm_case (t1 t2 : list N) :
  Forall2 (fun x y => ascii_lower x = ascii_lower y) t1 t2 ->
  normalise_title nfd is_Mn lower is_space t1 = normalise_title nfd is_Mn lower is_space t2.
Proof.
  intros H. rewrite !normalise_kp, (kp_concat t1), (kp_concat t2). f_equal. f_equal.
  induction H as [|x y t1 t2 Hxy _ IH]; [reflexivity|]. simpl. by rewrite IH, (kp_case x y Hxy).
Qed.

Lemma norm_marks (t1 t2 : list N) :
  List.filter (fun c => negb (is_Mn c)) (nfd t1) = List.filter (fun c => negb (is_Mn c)) (nfd t2) ->
  normalise_title nfd is_Mn lower is_space t1 = normalise_title nfd is_Mn lower is_space t2.
Proof. intros H. rewrite !normalise_kp. unfold kept. by rewrite H. Qed.

Lemma kp_punct (p : N) : ascii_punct p = true -> kp [p] = [].
Proof.
  unfold ascii_punct. intros H. apply andb_prop in H as [Hlt Hn].
  apply N.ltb_lt in Hlt. apply negb_true_iff in Hn.
  apply orb_false_iff in Hn as [Hn Hs]. apply orb_false_iff in Hn as [Haz H09].
  assert (Hl : ascii_lower p = p).
  { unfold ascii_lower in *. destruct (N.leb_spec 65 p), (N.leb_spec p 90); simpl in *; try reflexivity.
    exfalso. unfold is_az in Haz. destruct (N.leb_spec 97 (p + 32)), (N.leb_spec (p + 32) 122);
      simpl in Haz; try discriminate; lia. }
  rewrite kp_ascii by exact Hlt. rewrite Hl. unfold keep.
  rewrite Hl in Haz. rewrite Haz, H09, (law_space_ascii _ _ _ _ HU) by exact Hlt. by rewrite Hs.
Qed.

Lemma norm_punct (a b : list N) (p : N) :
  ascii_punct p = true ->
  normalise_title nfd is_Mn lower is_space (a ++ p :: b) = normalise_title nfd is_Mn lower is_space (a ++ b).
Proof.
  intros Hp. rewrite !normalise_kp. change (p :: b) with ([p] ++ b).
  rewrite !(law_kept_app _ _ _ _ HU), kp_punct by exact Hp. reflexivity.
Qed.

Lemma kp_space (w : list N) :
  space_kept nfd is_Mn lower is_space -> forallb sp w = true ->
  forallb sp (kp w) = true /\ (w <> [] -> kp w <> []).
Proof.
  intros HS Hw. rewrite kp_concat. induction w as [|c w IH]; [split; [reflexivity|done]|].
  simpl in Hw. apply andb_prop in Hw as [Hc Hw]. destruct (IH Hw) as [IH1 _].
  destruct (HS c Hc) as [Hne Hall]. simpl. rewrite forallb_app, IH1, andb_true_r. split.
  - apply forallb_forall. intros x Hx. rewrite Forall_forall in Hall.
    apply Hall. by apply list_elem_of_In.
  - intros _ H. apply app_eq_nil in H as [H _]. exact (Hne H).
Qed.

Lemma norm_ws_space (a b w1 w2 : list N) :
  space_kept nfd is_Mn lower is_space ->
  w1 <> [] -> w2 <> [] -> forallb sp w1 = true -> forallb sp w2 = true ->
  normalise_title nfd is_Mn lower is_space (a ++ w1 ++ b) =
  normalise_title nfd is_Mn lower is_space (a ++ w2 ++ b).
Proof.
  intros HS Hn1 Hn2 H1 H2. rewrite !normalise_kp, !(law_kept_app _ _ _ _ HU).
  destruct (kp_space w1 HS H1) as [Hs1 Hk1]. destruct (kp_space w2 HS H2) as [Hs2 Hk2].
  specialize (Hk1 Hn1). specialize (Hk2 Hn2).
  unfold collapse. rewrite !(collapse_app false (kp a)), !(collapse_run _ _ (kp b)) by assumption.
  reflexivity.
Qed.

Lemma norm_ends_space (t w1 w2 : list N) :
  space_kept nfd is_Mn lower is_space ->
  forallb sp w1 = true -> forallb sp w2 = true ->
  normalise_title nfd is_Mn lower is_space (w1 ++ t ++ w2) = normalise_title nfd is_Mn lower is_space t.
Proof.
  intros HS H1 H2. rewrite !normalise_kp, !(law_kept_app _ _ _ _ HU).
  destruct (kp_space w1 HS H1) as [Hs1 _]. destruct (kp_space w2 HS H2) as [Hs2 _].
  rewrite post_lead by exact Hs1. by rewrite post_trail.
Qed.

End NormaliseLemmas.

Lemma db_unicode_laws :
  Normalise.unicode_laws Normalise.nfd_db Normalise.is_Mn_db Normalise.lower_db Normalise.is_space_db.
Proof.
  constructor.
  - intros a b. unfold Normalise.kept, Normalise.nfd_db, Normalise.lower_db.
    rewrite flat_map_app. induction (flat_map Normalise.decomp_db a) as [|c l IH]; [reflexivity|].
    simpl. destruct (negb (Normalise.is_Mn_db c)); simpl; [|exact IH].
    destruct (Normalise.keep Normalise.is_space_db (Normalise.lower_char_db c)); simpl; by rewrite IH.
  - intros c Hc. simpl. unfold Normalise.decomp_db.
    destruct (N.eqb_spec c 233); [lia|]. destruct (N.eqb_spec c 201); [lia|].
    destruct (N.eqb_spec c 239); [lia|]. reflexivity.
  - intros c Hc. unfold Normalise.is_Mn_db. destruct (N.leb_spec 768 c); [lia|reflexivity].
  - intros c Hc. simpl. unfold Normalise.lower_char_db, Normalise.ascii_lower.
    destruct ((65 <=? c)%N && (c <=? 90)%N); [reflexivity|].
    destruct (N.eqb_spec c 201); [lia|reflexivity].
  - intros c Hc. unfold Normalise.is_space_db.
    destruct (N.eqb_spec c 133); [lia|]. destruct (N.eqb_spec c 160); [lia|].
    by rewrite !orb_false_r.
Qed.

Lemma db_space_kept :
  Normalise.space_kept Normalise.nfd_db Normalise.is_Mn_db Normalise.lower_db Normalise.is_space_db.
Proof.
  intros w Hw.
  assert (Hd : Normalise.decomp_db w = [w]).
  { unfold Normalise.decomp_db. unfold Normalise.is_space_db, Normalise.ascii_space in Hw.
    destruct (N.eqb_spec w 233); [subst; discriminate|].
    destruct (N.eqb_spec w 201); [subst; discriminate|].
    destruct (N.eqb_spec w 239); [subst; discriminate|]. reflexivity. }
  assert (Hm : Normalise.is_Mn_db w = false).
  { unfold Normalise.is_Mn_db. unfold Normalise.is_space_db, Normalise.ascii_space in Hw.
    repeat match goal with
    | H : context [(?a <=? ?b)%N] |- _ => destruct (N.leb_spec a b)
    | H : context [(?a =? ?b)%N] |- _ => destruct (N.eqb_spec a b)
    | |- context [(?a <=? ?b)%N] => destruct (N.leb_spec a b)
    end; simpl in *; try discriminate; try reflexivity; lia. }
  assert (Hl : Normalise.lower_char_db w = w).
  { unfold Normalise.lower_char_db. unfold Normalise.is_space_db, Normalise.ascii_space in Hw.
    repeat match goal with
    | H : context [(?a <=? ?b)%N] |- _ => destruct (N.leb_spec a b)
    | H : context [(?a =? ?b)%N] |- _ => destruct (N.eqb_spec a b)
    | |- context [(?a <=? ?b)%N] => destruct (N.leb_spec a b)
    | |- context [(?a =? ?b)%N] => destruct (N.eqb_spec a b)
    end; simpl in *; try discriminate; try reflexivity; lia. }
  unfold Normalise.kept, Normalise.nfd_db, Normalise.lower_db. simpl. rewrite app_nil_r, Hd.
  simpl. rewrite Hm. simpl. rewrite Hl. unfold Normalise.keep. rewrite Hw, !orb_true_r.
  split; [discriminate|]. constructor; [exact Hw|constructor].
Qed.




(* ------------------------------------------------------------------ *)
(** ** The reflection controller *)

Section ReflectionLemmas.
Import Json Reflection.

Lemma len_iter_ok (v : jvalue) : len_ok v = Ok tt -> iter_ok v = Ok tt.
Proof. by destruct v. Qed.

(** The critic changes only [critique], [revision_actions] and [score],
    and leaves an iterable [revision_actions]. *)
Lemma critic_node_frame (gen : node -> rstate -> text) (loads : text -> res jvalue) (s s' : rstate) :
  critic_node gen loads s = Ok s' ->
  abstract_rewrite s' = abstract_rewrite s /\ problem_solved s' = problem_solved s /\
  linkedin_post s' = linkedin_post s /\ iteration s' = iteration s /\
  max_iterations s' = max_iterations s /\ iter_ok (revision_actions s') = Ok tt.
Proof.
  unfold critic_node. destruct (extract (gen Critic s)) as [js ct].
  destruct (loads js) as [v|e].
  - destruct v; try (intros H; injection H as <-; done).
    destruct (len_ok (jget k_revision_actions kvs (JArr []))) as [[]|e] eqn:E; simpl;
      [|discriminate].
    intros H; injection H as <-. simpl. repeat split. by apply len_iter_ok.
  - destruct e; try discriminate. intros H; injection H as <-. done.
Qed.

Lemma reflect_run_unfold (gen : node -> rstate -> text) (loads : text -> res jvalue)
    (mi : Z) (ti au ve : list N) (yr : Z) (ab ar ps lp : list N) :
  reflect_run gen loads mi ti au ve yr ab ar ps lp =
  (let? s1 := critic_node gen loads (init_state mi ti au ve yr ab ar ps lp) in
   let? r := should_revise s1 in
   match r with
   | Accept => Ok (s1, [Critic])
   | Revise => let? s2 := reviser_node gen loads s1 in Ok (s2, [Critic; Reviser])
   end).
Proof.
  unfold reflect_run, graph_recursion_limit. cbn [run_graph run_node edge].
  destruct (critic_node gen loads _) as [s1|e]; [simpl|reflexivity].
  destruct (should_revise s1) as [[]|e]; simpl; [|reflexivity|reflexivity].
  destruct (reviser_node gen loads s1); reflexivity.
Qed.

Lemma reflect_of_run (gen : node -> rstate -> text) (loads : text -> res jvalue)
    (mi : Z) (ti au ve : list N) (yr : Z) (ab ar ps lp : list N) (s : rstate) (tr : list node) :
  reflect_run gen loads mi ti au ve yr ab ar ps lp = Ok (s, tr) ->
  reflect gen loads mi ti au ve yr ab ar ps lp = Ok (abstract_rewrite s, problem_solved s, linkedin_post s).
Proof. unfold reflect. intros ->. reflexivity. Qed.

End ReflectionLemmas.

(** C3 (amended). After the critic, the iteration counter is 0 and
    [max_iterations] is the one given. When the critic's [score] is a number
    ([int], [float] or [bool], so that [score >= 8.0] evaluates to [b]), the
    controller accepts exactly when [score >= 8.0] or
    [iteration >= max_iterations] and otherwise revises. On acceptance,
    [reflect] returns the three draft fields unchanged and only the critic
    ran; on revision, the reviser runs once and the graph ends. When the
    [score] is a string, [null], a list or an object, [score >= 8.0] raises
    [TypeError] and so does [reflect]. Every successful run executes
    [Critic] or [Critic; Reviser], so at most one revision occurs. *)
Theorem reflect_decision_rule (gen : Reflection.node -> Reflection.rstate -> text)
    (loads : text -> res Json.jvalue) (mi : Z) (ti au ve : list N) (yr : Z)
    (ab ar ps lp : list N) (s1 : Reflection.rstate)
    (Hc : Reflection.critic_node gen loads (Reflection.init_state mi ti au ve yr ab ar ps lp) = Ok s1) :
  Reflection.iteration s1 = 0%Z /\ Reflection.max_iterations s1 = mi /\
  (forall b, Reflection.ge_8_0 (Reflection.score s1) = Ok b ->
   let accept := b || (Reflection.max_iterations s1 <=? Reflection.iteration s1)%Z in
   Reflection.should_revise s1 = Ok (if accept then Reflection.Accept else Reflection.Revise) /\
   (accept = true ->
      Reflection.reflect_run gen loads mi ti au ve yr ab ar ps lp = Ok (s1, [Reflection.Critic]) /\
      Reflection.reflect gen loads mi ti au ve yr ab ar ps lp =
        Ok (Json.JStr ar, Json.JStr ps, Json.JStr lp)) /\
   (accept = false ->
      Reflection.reflect_run gen loads mi ti au ve yr ab ar ps lp =
        (let? s2 := Reflection.reviser_node gen loads s1 in
         Ok (s2, [Reflection.Critic; Reflection.Reviser])))) /\
  (match Reflection.score s1 with
   | Json.JNull | Json.JStr _ | Json.JArr _ | Json.JObj _ => True
   | _ => False
   end ->
   Reflection.ge_8_0 (Reflection.score s1) = Err TypeError /\
   Reflection.should_revise s1 = Err TypeError /\
   Reflection.reflect gen loads mi ti au ve yr ab ar ps lp = Err TypeError) /\
  (forall s tr, Reflection.reflect_run gen loads mi ti au ve yr ab ar ps lp = Ok (s, tr) ->
     tr = [Reflection.Critic] \/ tr = [Reflection.Critic; Reflection.Reviser]).
Proof.
  destruct (critic_node_frame _ _ _ _ Hc) as (Har & Hps & Hlp & Hit & Hmi & _).
  split; [exact Hit|]. split; [exact Hmi|]. split; [|split].
  - intros b Hs accept.
    assert (Hsr : Reflection.should_revise s1 =
                  Ok (if accept then Reflection.Accept else Reflection.Revise)).
    { unfold Reflection.should_revise. rewrite Hs. reflexivity. }
    split; [exact Hsr|]. split.
    + intros Ha. rewrite Ha in Hsr.
      assert (Hr : Reflection.reflect_run gen loads mi ti au ve yr ab ar ps lp = Ok (s1, [Reflection.Critic])).
      { rewrite reflect_run_unfold, Hc. simpl. rewrite Hsr. reflexivity. }
      split; [exact Hr|]. rewrite (reflect_of_run _ _ _ _ _ _ _ _ _ _ _ _ _ Hr), Har, Hps, Hlp.
      reflexivity.
    + intros Ha. rewrite Ha in Hsr. rewrite reflect_run_unfold, Hc. simpl. rewrite Hsr. reflexivity.
  - intros Hty.
    assert (Hg : Reflection.ge_8_0 (Reflection.score s1) = Err TypeError).
    { revert Hty. destruct (Reflection.score s1); simpl; intros Hty; try contradiction; reflexivity. }
    assert (Hsr : Reflection.should_revise s1 = Err TypeError).
    { unfold Reflection.should_revise. rewrite Hg. reflexivity. }
    assert (Hr : Reflection.reflect_run gen loads mi ti au ve yr ab ar ps lp = Err TypeError).
    { rewrite reflect_run_unfold, Hc. simpl. rewrite Hsr. reflexivity. }
    split; [exact Hg|]. split; [exact Hsr|]. unfold Reflection.reflect. rewrite Hr. reflexivity.
  - intros s tr. rewrite reflect_run_unfold.
    destruct (Reflection.critic_node gen loads _) as [s'|e]; simpl; [|discriminate].
    destruct (Reflection.should_revise s') as [[]|e]; simpl; [|intros H; injection H as _ <-; auto|discriminate].
    destruct (Reflection.reviser_node gen loads s'); simpl; [|discriminate].
    intros H; injection H as _ <-; auto.
Qed.

Lemma reflect_decision_rule_witness :
  exists s1,
    Reflection.critic_node
      (Reflection.gen_of (Reflection.jtxt "Review: {'overall_score': 6, 'revision_actions': ['shorten']}")
                         (Reflection.jtxt "{'abstract_rewrite': 'better'}"))
      Reflection.ex_loads (Reflection.init_state 1 [] [] [] 2024 [] (Normalise.cps "ar") (Normalise.cps "ps") (Normalise.cps "lp")) = Ok s1 /\
    Reflection.reflect_run
      (Reflection.gen_of (Reflection.jtxt "Review: {'overall_score': 6, 'revision_actions': ['shorten']}")
                         (Reflection.jtxt "{'abstract_rewrite': 'better'}"))
      Reflection.ex_loads 1 [] [] [] 2024 [] (Normalise.cps "ar") (Normalise.cps "ps") (Normalise.cps "lp") =
    (let? s2 := Reflection.reviser_node
        (Reflection.gen_of (Reflection.jtxt "Review: {'overall_score': 6, 'revision_actions': ['shorten']}")
                           (Reflection.jtxt "{'abstract_rewrite': 'better'}"))
        Reflection.ex_loads s1 in
     Ok (s2, [Reflection.Critic; Reflection.Reviser])).
Proof.
  match goal with |- exists s1, ?c = Ok s1 /\ _ => destruct c as [s1|e] eqn:Hc end;
    [|vm_compute in Hc; discriminate].
  exists s1. split; [reflexivity|].
  pose proof Hc as Hc'. vm_compute in Hc'. injection Hc' as Hs1.
  assert (Hs : Reflection.ge_8_0 (Reflection.score s1) = Ok false)
    by (rewrite <- Hs1; vm_compute; reflexivity).
  destruct (reflect_decision_rule _ _ _ _ _ _ _ _ _ _ _ _ Hc) as (_ & _ & Hnum & _ & _).
  destruct (Hnum false Hs) as (_ & _ & H).
  apply H. rewrite <- Hs1. vm_compute. reflexivity.
Defined.

(** C3 counterexample: a critic that scores with a string (or [null])
    makes [score >= 8.0] raise [TypeError], so [reflect] neither accepts
    nor revises. *)
Lemma reflect_string_score_raises :
  Reflection.reflect (Reflection.gen_of (Reflection.jtxt "{'overall_score': '9'}") [])
    Reflection.ex_loads 1 [] [] [] 2024 [] (Normalise.cps "ar") (Normalise.cps "ps") (Normalise.cps "lp")
  = Err TypeError /\
  Reflection.reflect (Reflection.gen_of (Reflection.jtxt "{'overall_score': null}") [])
    Reflection.ex_loads 1 [] [] [] 2024 [] (Normalise.cps "ar") (Normalise.cps "ps") (Normalise.cps "lp")
  = Err TypeError.
Proof. split; vm_compute; reflexivity. Qed.




(* ------------------------------------------------------------------ *)
(** ** The retrieval loop *)

Section RetrievalLemmas.
Import Orchestrator.

Lemma loops_forever_no_result (retrieve : nat -> Z -> list paper) (l : ledger) (target : Z)
    (fuel : nat) : forall s, loops_forever retrieve l target s -> retrieval_loop retrieve l target fuel s = None.
Proof.
  induction fuel as [|f IH]; intros s Hs; [reflexivity|].
  inversion Hs as [s0 s' Hlt Hb Hs']; subst. simpl.
  rewrite (proj2 (Z.ltb_lt _ _) Hlt), Hb. by apply IH.
Qed.

Section Terminates.
Variable retrieve : nat -> Z -> list paper.
Variable l : ledger.
Variable target : Z.
Hypothesis Hceil : forall a b, (max_batch_size <= b)%Z ->
  retrieve a b = [] \/ length (filter_new_papers l (retrieve a b)) = 0%nat \/
  (target <= Z.of_nat (length (filter_new_papers l (retrieve a b))))%Z.

Lemma loop_terminates_aux (k : nat) : forall s,
  (1 <= batch_size s)%Z -> (max_batch_size <= 2 ^ Z.of_nat k * batch_size s)%Z ->
  exists s', retrieval_loop retrieve l target (S k) s = Some s'.
Proof.
  unfold max_batch_size. induction k as [|k IH]; intros s H1 H2; simpl.
  - destruct (Z.of_nat (length (new_papers s)) <? target)%Z; [|eauto].
    unfold loop_body. simpl in H2.
    destruct (retrieve (S (attempt s)) (batch_size s)) as [|p ps] eqn:R; [eauto|].
    rewrite <- R. destruct (target <=? _)%Z eqn:Ht; [eauto|].
    destruct (Hceil (S (attempt s)) (batch_size s)) as [E|[E|E]]; [unfold max_batch_size; lia| | |].
    + rewrite R in E; discriminate.
    + assert (Hm : (max_batch_size <=? batch_size s)%Z = true)
        by (apply Z.leb_le; unfold max_batch_size; simpl in H2; lia).
      rewrite E, Hm. simpl. eauto.
    + apply Z.leb_le in E. congruence.
  - destruct (Z.of_nat (length (new_papers s)) <? target)%Z; [|eauto].
    unfold loop_body.
    destruct (retrieve (S (attempt s)) (batch_size s)) as [|p ps] eqn:R; [eauto|].
    destruct (target <=? _)%Z; [eauto|].
    destruct (_ && _); [eauto|].
    apply IH; simpl.
    + unfold max_batch_size. lia.
    + unfold max_batch_size. rewrite Nat2Z.inj_succ, Z.pow_succ_r in H2 by lia.
      assert (Hp : (1 <= 2 ^ Z.of_nat k)%Z) by (pose proof (Z.pow_pos_nonneg 2 (Z.of_nat k)); lia).
      destruct (Z.min_spec (batch_size s * 2) 50) as [[_ ->]|[_ ->]]; nia.
Qed.

End Terminates.

Lemma ex_no_termination_forever (s : rloop) :
  (Z.of_nat (length (new_papers s)) < 3)%Z ->
  loops_forever (fun _ _ => [mk_paper 0]) (mkLedger ex_path [] []) 3 s.
Proof.
  revert s. cofix CH. intros s H.
  assert (E : loop_body (fun _ _ => [mk_paper 0]) (mkLedger ex_path [] []) 3 s =
              Continue (mkLoop (S (attempt s)) (Z.min (batch_size s * 2) max_batch_size) [mk_paper 0])).
  { assert (F : filter_new_papers (mkLedger ex_path [] []) [mk_paper 0] = [mk_paper 0])
      by (vm_compute; reflexivity).
    unfold loop_body. cbv beta. rewrite F.
    destruct (max_batch_size <=? batch_size s)%Z; reflexivity. }
  refine (loops_step _ _ _ s _ H E (CH _ _)). simpl. lia.
Qed.

Lemma flat_map_process (reaches_add : paper -> bool) (xs : list paper) :
  flat_map (process_paper_ops reaches_add) xs = map AddEntry (List.filter reaches_add xs).
Proof.
  induction xs as [|p xs IH]; [reflexivity|]. cbn [flat_map List.filter]. rewrite IH.
  unfold process_paper_ops. by destruct (reaches_add p).
Qed.

Lemma exec_adds_fs (model_name : string) (outputs : paper -> pyval * pyval * pyval)
    (now : paper -> string) (flt : fault) (ps : list paper) : forall l m,
  (exec_ops model_name outputs now flt (map AddEntry ps) (l, m)).2 = m.
Proof.
  induction ps as [|p ps IH]; intros l m; [reflexivity|]. simpl.
  destruct (outputs p) as [[ar pr] lp]. apply IH.
Qed.

End RetrievalLemmas.

(** C8 (amended). Each pass of the retrieval loop stops exactly when the
    retrieval returns nothing, when at least [target] of its papers are
    new, or when the batch size is at least 50 and none is new; otherwise
    the batch size becomes [min(2 * batch_size, 50)] and the loop retries.
    The loop terminates, within 7 passes, when the initial batch size is at
    least 1 and every retrieval made at a batch size of at least 50 returns
    nothing, no new paper, or at least [target] new papers. *)
Theorem retrieval_loop_rule (retrieve : nat -> Z -> list Orchestrator.paper) (l : ledger)
    (target b0 : Z) (Hb : (1 <= b0)%Z)
    (Hceil : forall a b, (Orchestrator.max_batch_size <= b)%Z ->
       retrieve a b = [] \/ length (Orchestrator.filter_new_papers l (retrieve a b)) = 0%nat \/
       (target <= Z.of_nat (length (Orchestrator.filter_new_papers l (retrieve a b))))%Z) :
  (forall s,
     let all := retrieve (S (Orchestrator.attempt s)) (Orchestrator.batch_size s) in
     let n := length (Orchestrator.filter_new_papers l all) in
     match Orchestrator.loop_body retrieve l target s with
     | Orchestrator.Stop _ =>
         all = [] \/ (target <= Z.of_nat n)%Z \/
         ((Orchestrator.max_batch_size <= Orchestrator.batch_size s)%Z /\ n = 0%nat)
     | Orchestrator.Continue s' =>
         all <> [] /\ (Z.of_nat n < target)%Z /\
         ~ ((Orchestrator.max_batch_size <= Orchestrator.batch_size s)%Z /\ n = 0%nat) /\
         Orchestrator.batch_size s' =
           Z.min (Orchestrator.batch_size s * 2) Orchestrator.max_batch_size
     end) /\
  exists s, Orchestrator.retrieval_loop retrieve l target 7 (Orchestrator.loop_start b0) = Some s.
Proof.
  split.
  - intros s. cbv zeta. unfold Orchestrator.loop_body.
    generalize (retrieve (S (Orchestrator.attempt s)) (Orchestrator.batch_size s)) as all.
    intros [|p ps]; [by left|]. cbv iota.
    generalize (length (Orchestrator.filter_new_papers l (p :: ps))) as n. intros n.
    destruct (target <=? Z.of_nat n)%Z eqn:Ht; cbv iota; [right; left; by apply Z.leb_le|].
    apply Z.leb_gt in Ht.
    destruct (Orchestrator.max_batch_size <=? Orchestrator.batch_size s)%Z eqn:Hm;
      destruct (n =? 0)%nat eqn:Hn; simpl.
    + apply Z.leb_le in Hm. apply Nat.eqb_eq in Hn. auto.
    + apply Nat.eqb_neq in Hn. repeat split; [discriminate|lia|intros [_ ?]; lia].
    + apply Z.leb_gt in Hm. repeat split; [discriminate|lia|intros [? _]; lia].
    + apply Z.leb_gt in Hm. repeat split; [discriminate|lia|intros [? _]; lia].
  - apply (loop_terminates_aux retrieve l target Hceil 6); simpl; unfold Orchestrator.max_batch_size; lia.
Qed.

Lemma retrieval_loop_rule_witness :
  (exists s, Orchestrator.retrieval_loop Orchestrator.ex_retrieve (mkLedger ex_path [] []) 3 7
               (Orchestrator.loop_start 10) = Some s) /\
  Orchestrator.retrieval_loop Orchestrator.ex_retrieve (mkLedger ex_path [] []) 3 7
    (Orchestrator.loop_start 10) = Some (Orchestrator.mkLoop 2 20 (Orchestrator.papers_upto 4)).
Proof.
  split; [|vm_compute; reflexivity].
  refine (proj2 (retrieval_loop_rule Orchestrator.ex_retrieve (mkLedger ex_path [] []) 3 10 _ _)).
  - lia.
  - intros a b Hb. left. unfold Orchestrator.ex_retrieve.
    rewrite (proj2 (Z.leb_le _ _) Hb). reflexivity.
Defined.

(** C8 counterexample: with a target of 3 and a source that always returns
    one new paper, the loop reaches the batch ceiling and retries forever. *)
Lemma retrieval_loop_no_termination :
  Orchestrator.loops_forever (fun _ _ => [Orchestrator.mk_paper 0]) (mkLedger ex_path [] []) 3
    (Orchestrator.loop_start 10) /\
  Orchestrator.retrieval_loop (fun _ _ => [Orchestrator.mk_paper 0]) (mkLedger ex_path [] []) 3 1000
    (Orchestrator.loop_start 10) = None.
Proof.
  assert (H : Orchestrator.loops_forever (fun _ _ => [Orchestrator.mk_paper 0]) (mkLedger ex_path [] []) 3
                (Orchestrator.loop_start 10)) by (apply ex_no_termination_forever; simpl; lia).
  split; [exact H|]. by apply loops_forever_no_result.
Qed.

(* ------------------------------------------------------------------ *)
(** ** The ledger calls of [run] *)

(** C9 (amended). [run] calls [ledger.add_entry] once for each paper, then
    each Reddit post, whose processing reaches it, and calls [ledger.save]
    once, after all of them. Before that save the ledger file is unchanged:
    after any proper prefix of these calls the file system is the one the
    run started with. *)
Theorem run_saves_once_at_end (reaches_add : Orchestrator.paper -> bool)
    (papers reddit : list Orchestrator.paper) (model_name : string)
    (outputs : Orchestrator.paper -> pyval * pyval * pyval) (now : Orchestrator.paper -> string)
    (flt : fault) (l : ledger) (m : fs) :
  Orchestrator.run_ops reaches_add papers reddit =
    map Orchestrator.AddEntry (List.filter reaches_add (papers ++ reddit)) ++ [Orchestrator.Save] /\
  (forall k, (k < length (Orchestrator.run_ops reaches_add papers reddit))%nat ->
     (Orchestrator.exec_ops model_name outputs now flt
        (take k (Orchestrator.run_ops reaches_add papers reddit)) (l, m)).2 = m).
Proof.
  assert (E : Orchestrator.run_ops reaches_add papers reddit =
              map Orchestrator.AddEntry (List.filter reaches_add (papers ++ reddit)) ++ [Orchestrator.Save]).
  { unfold Orchestrator.run_ops. rewrite !flat_map_process, app_assoc, <- map_app.
    f_equal. f_equal. induction papers as [|p ps IH]; [reflexivity|]. simpl.
    destruct (reaches_add p); simpl; by rewrite IH. }
  split; [exact E|]. intros k Hk. rewrite E in Hk |- *.
  rewrite length_app, length_map in Hk. simpl in Hk.
  rewrite take_app_le by (rewrite length_map; lia).
  rewrite firstn_map. apply exec_adds_fs.
Qed.

Lemma run_saves_once_at_end_witness :
  (Orchestrator.exec_ops "model-x" (fun _ => (PStr "rewrite", PStr "problem", PStr "post"))
     (fun _ => "2024-01-02T03:04:05"%string) NoFault
     (take 1 (Orchestrator.run_ops (fun _ => true) [ex_paper] [])) (mkLedger ex_path [] [], empty_fs)).2
  = empty_fs.
Proof.
  apply (proj2 (run_saves_once_at_end (fun _ => true) [ex_paper] [] "model-x"
                  (fun _ => (PStr "rewrite", PStr "problem", PStr "post"))
                  (fun _ => "2024-01-02T03:04:05"%string) NoFault (mkLedger ex_path [] []) empty_fs)).
  vm_compute. lia.
Defined.

(** C9 counterexample: with two papers, [run] adds both entries before its
    only save; if the process dies while the second paper is processed, the
    first paper's entry is in memory only, the ledger file does not exist,
    and a reload does not know the paper. *)
Lemma run_loses_completed_entry :
  Orchestrator.run_ops (fun _ => true) [ex_paper; Orchestrator.mk_paper 1] [] =
    [Orchestrator.AddEntry ex_paper; Orchestrator.AddEntry (Orchestrator.mk_paper 1); Orchestrator.Save] /\
  let st := Orchestrator.exec_ops "model-x" (fun _ => (PStr "rewrite", PStr "problem", PStr "post"))
              (fun _ => "2024-01-02T03:04:05"%string) NoFault
              [Orchestrator.AddEntry ex_paper] (mkLedger ex_path [] [], empty_fs) in
  is_processed st.1 "arxiv:2401.00001" = true /\
  st.2 ex_path = None /\
  init ex_path true st.2 = Ok (mkLedger ex_path [] []).
Proof. split; [reflexivity|]. repeat split; vm_compute; reflexivity. Qed.

(* ================================================================== *)
(** * Further properties of the code *)

(* ------------------------------------------------------------------ *)
(** ** PaperLedger: save, add_entry and _load *)

Section LedgerFacts.

Lemma dict_to_list_err (r : row) (e : exn) : dict_to_list r = Err e -> e = ValueError.
Proof.
  unfold dict_to_list. destruct (rest r); [congruence|].
  destruct (existsb _ _); congruence.
Qed.

Lemma write_rows_status (rows : list row) :
  (write_rows rows).1 = if forallb writable rows then Ok tt else Err ValueError.
Proof.
  induction rows as [|r rows IH]; [reflexivity|]. simpl. unfold writable at 1.
  destruct (dict_to_list r) as [vs|e] eqn:E; simpl.
  - destruct (write_rows rows) as [st t]. destruct (forallb str_ok vs); [exact IH|reflexivity].
  - by rewrite (dict_to_list_err r e E).
Qed.

Lemma serialize_status (rows : list row) :
  (serialize rows).1 = if forallb writable rows then Ok tt else Err ValueError.
Proof. rewrite <- write_rows_status. unfold serialize. by destruct (write_rows rows). Qed.

Lemma dict_to_list_row_ok (r : row) : row_ok r -> dict_to_list r = Ok (vals r).
Proof.
  intros [Hr Hk]. unfold dict_to_list. rewrite Hr.
  assert (existsb (fun k => negb (bool_decide (k ∈ FIELDNAMES))) (map fst (cells r)) = false) as ->.
  { apply not_true_iff_false. intros Hex. apply existsb_exists in Hex as (k & Hin & Hb).
    rewrite Forall_forall in Hk. specialize (Hk k (proj2 (list_elem_of_In _ _) Hin)).
    rewrite bool_decide_true in Hb by exact Hk. discriminate. }
  reflexivity.
Qed.

Lemma writable_spec (r : row) :
  writable r = true <-> row_ok r /\ forallb str_ok (vals r) = true.
Proof.
  unfold writable. destruct (dict_to_list r) as [vs|e] eqn:E.
  - destruct (dict_to_list_ok r vs E) as [Hr ->]. tauto.
  - split; [discriminate|]. intros [Hr _]. rewrite dict_to_list_row_ok in E by exact Hr.
    discriminate.
Qed.

Lemma with_suffix_err (p : path) (sfx : string) (e : exn) :
  with_suffix p sfx = Err e -> e = ValueError.
Proof. unfold with_suffix. case_bool_decide; congruence. Qed.

Lemma fs_upd_other (m : fs) (p q : path) (f : option file) : q <> p -> fs_upd m p f q = m q.
Proof. intros H. unfold fs_upd. by rewrite bool_decide_false. Qed.

Lemma fs_upd_same (m : fs) (p : path) (f : option file) : fs_upd m p f p = f.
Proof. unfold fs_upd. by rewrite bool_decide_true. Qed.

Lemma save_nofault_status (l : ledger) (m : fs) :
  (save l NoFault m).1 =
  match with_suffix (ledger_path l) ".tmp" with
  | Err e => Err e
  | Ok _ => if forallb writable (ledger_rows l) then Ok tt else Err ValueError
  end.
Proof.
  unfold save. destruct (with_suffix (ledger_path l) ".tmp") as [tmp|e]; [|reflexivity].
  rewrite <- serialize_status. destruct (serialize (ledger_rows l)) as [[[]|e] t]; reflexivity.
Qed.

Lemma load_rows_go (rows : list row) (acc : list pyval) (x : pyval) :
  x ∈ fold_left (fun ids r => let cid := row_get "canonical_id" r PNone in
                             if truthy cid then ids ++ [cid] else ids) rows acc <->
  x ∈ acc \/ (truthy x = true /\ exists r, r ∈ rows /\ row_get "canonical_id" r PNone = x).
Proof.
  revert acc. induction rows as [|r rows IH]; intros acc; simpl.
  - split; [by left|]. intros [H|(_ & r & Hr & _)]; [exact H|]. by apply elem_of_nil in Hr.
  - rewrite IH. destruct (truthy (row_get "canonical_id" r PNone)) eqn:Ht.
    + rewrite elem_of_app, list_elem_of_singleton. split.
      * intros [[H|H]|(Hx & r' & Hr' & Hx')]; [by left| |].
        -- right. subst x. split; [exact Ht|]. exists r. split; [left|reflexivity].
        -- right. split; [exact Hx|]. exists r'. split; [by right|exact Hx'].
      * intros [H|(Hx & r' & Hr' & Hx')]; [by left; left|].
        apply elem_of_cons in Hr' as [->|Hr']; [left; right; by symmetry|].
        right. split; [exact Hx|]. eauto.
    + split.
      * intros [H|(Hx & r' & Hr' & Hx')]; [by left|]. right. split; [exact Hx|].
        exists r'. split; [by right|exact Hx'].
      * intros [H|(Hx & r' & Hr' & Hx')]; [by left|].
        apply elem_of_cons in Hr' as [->|Hr']; [subst x; congruence|].
        right. split; [exact Hx|]. eauto.
Qed.

Lemma load_rows_spec (rows : list row) (x : pyval) :
  x ∈ load_rows rows <->
  truthy x = true /\ exists r, r ∈ rows /\ row_get "canonical_id" r PNone = x.
Proof.
  unfold load_rows. rewrite load_rows_go. split; [|by right].
  intros [H|H]; [by apply elem_of_nil in H|exact H].
Qed.

Lemma init_shape (p : path) (m : fs) (l : ledger) :
  init p true m = Ok l -> exists rows, l = mkLedger p (load_rows rows) rows.
Proof.
  unfold init, load. simpl. destruct (m p) as [[t|]|]; simpl; try discriminate.
  - destruct (CsvRead.read_csv t) as [recs|e]; simpl; [|discriminate].
    intros H. injection H as <-. eauto.
  - intros H. injection H as <-. exists []. reflexivity.
Qed.

End LedgerFacts.

Section LedgerFacts2.

Lemma writable_false (r : row) :
  rest r <> None \/ Exists (fun k => k ∉ FIELDNAMES) (map fst (cells r)) -> writable r = false.
Proof.
  unfold writable, dict_to_list. intros [Hr|Hr]; [by destruct (rest r)|].
  destruct (rest r); [reflexivity|].
  assert (Hx : existsb (fun k => negb (bool_decide (k ∈ FIELDNAMES))) (map fst (cells r)) = true).
  { apply Exists_exists in Hr as (k & Hin & Hk). apply existsb_exists. exists k.
    split; [by apply list_elem_of_In|]. by rewrite bool_decide_false. }
  by rewrite Hx.
Qed.

Lemma save_bad_row (l : ledger) (m : fs) (r : row) :
  txt (pname (ledger_path l)) <> [] -> r ∈ ledger_rows l -> writable r = false ->
  (save l NoFault m).1 = Err ValueError.
Proof.
  intros Hn Hr Hw. rewrite save_nofault_status.
  destruct (with_suffix_ok (ledger_path l) ".tmp" Hn) as [tmp ->].
  destruct (forallb writable (ledger_rows l)) eqn:Hf; [|reflexivity].
  rewrite forallb_forall in Hf. apply list_elem_of_In in Hr. rewrite Hf in Hw; done.
Qed.

Lemma dict_set_keys (k k' : string) (v : pyval) (d : list (string * pyval)) :
  k' ∈ map fst (dict_set k v d) <-> k' = k \/ k' ∈ map fst d.
Proof.
  induction d as [|[k0 v0] d IH]; simpl.
  - rewrite list_elem_of_singleton. split; [by left|]. intros [H|H]; [exact H|by apply elem_of_nil in H].
  - case_bool_decide as E; simpl; rewrite !elem_of_cons; [subst; tauto|rewrite IH; tauto].
Qed.

Lemma fold_dict_set_keys {B} (g : B -> pyval) (kvs : list (string * B)) (d : list (string * pyval)) (k : string) :
  k ∈ map fst d \/ k ∈ map fst kvs ->
  k ∈ map fst (fold_left (fun d kv => dict_set kv.1 (g kv.2) d) kvs d).
Proof.
  revert d. induction kvs as [|[k0 b] kvs IH]; intros d Hk; simpl.
  - destruct Hk as [Hk|Hk]; [exact Hk|by apply elem_of_nil in Hk].
  - apply IH. rewrite dict_set_keys. simpl in Hk. rewrite elem_of_cons in Hk. tauto.
Qed.

Lemma hdr_split {B} (hdr : list string) (r : list B) (k : string) :
  k ∈ hdr -> k ∈ map fst (zip hdr r) \/ k ∈ drop (length r) hdr.
Proof.
  revert r. induction hdr as [|h hdr IH]; intros r Hk; [by apply elem_of_nil in Hk|].
  destruct r as [|b r]; [by right|]. simpl. rewrite elem_of_cons in Hk |- *.
  destruct Hk as [->|Hk]; [by left; left|]. destruct (IH r Hk); [left; by right|by right].
Qed.

Lemma fold_dict_set_none_keys (ks : list string) (d : list (string * pyval)) (k : string) :
  k ∈ map fst d \/ k ∈ ks ->
  k ∈ map fst (fold_left (fun d k => dict_set k PNone d) ks d).
Proof.
  revert d. induction ks as [|k0 ks IH]; intros d Hk; simpl.
  - destruct Hk as [Hk|Hk]; [exact Hk|by apply elem_of_nil in Hk].
  - apply IH. rewrite dict_set_keys. rewrite elem_of_cons in Hk. tauto.
Qed.

Lemma mk_row_keys (hdr : list string) (r : list text) (k : string) :
  k ∈ hdr -> k ∈ map fst (cells (mk_row hdr r)).
Proof.
  intros Hk. unfold mk_row. cbn [cells]. apply fold_dict_set_none_keys.
  destruct (hdr_split hdr r k Hk) as [H|H]; [|by right].
  left. apply (fold_dict_set_keys (fun t => PStr (str t))). by right.
Qed.

End LedgerFacts2.

(** X1. When [save] raises, no file is touched except its temporary file
    [ledger_path.with_suffix(".tmp")]; in particular the ledger file keeps
    its previous content whenever the temporary path is another path. *)
Theorem save_failure_confined (l : ledger) (flt : fault) (m : fs) (e : exn) (q : path)
    (He : (save l flt m).1 = Err e)
    (Hq : forall tmp, with_suffix (ledger_path l) ".tmp" = Ok tmp -> q <> tmp) :
  (save l flt m).2 q = m q.
Proof.
  unfold save in *. destruct (with_suffix (ledger_path l) ".tmp") as [tmp|e'] eqn:Hw; [|reflexivity].
  specialize (Hq tmp eq_refl).
  destruct (serialize (ledger_rows l)) as [wst content].
  destruct flt as [| |k|]; simpl in *; try reflexivity; try (apply fs_upd_other; exact Hq).
  - destruct wst as [[]|e'']; [discriminate|apply fs_upd_other; exact Hq].
  - destruct wst as [[]|e'']; apply fs_upd_other; exact Hq.
Qed.

Lemma save_failure_confined_witness :
  (save ex_ledger (FailWrite 10) empty_fs).1 = Err OSError /\
  (save ex_ledger (FailWrite 10) empty_fs).2 ex_path = empty_fs ex_path.
Proof.
  split; [reflexivity|].
  apply (save_failure_confined ex_ledger (FailWrite 10) empty_fs OSError ex_path).
  - reflexivity.
  - intros tmp Hw. vm_compute in Hw. injection Hw as <-. discriminate.
Defined.

(** X2. [save] succeeds only when no I/O fault occurs, the ledger path has
    a non-empty name (so [with_suffix(".tmp")] does not raise) and every row
    can be written by [DictWriter]: no [restkey] entry, only ledger columns,
    and no int of more than 4300 digits. With a non-empty name and no fault,
    a first row that cannot be written makes [save] raise [ValueError]. *)
Theorem save_success_requires (l : ledger) (flt : fault) (m : fs) :
  ((save l flt m).1 = Ok tt ->
   flt = NoFault /\ txt (pname (ledger_path l)) <> [] /\
   Forall (fun r => row_ok r /\ forallb str_ok (vals r) = true) (ledger_rows l)) /\
  (forall r rs, txt (pname (ledger_path l)) <> [] -> ledger_rows l = r :: rs ->
   ~ (row_ok r /\ forallb str_ok (vals r) = true) ->
   (save l NoFault m).1 = Err ValueError).
Proof.
  split.
  - intros H. assert (flt = NoFault) as ->.
    { unfold save in H. destruct (with_suffix (ledger_path l) ".tmp"); [|discriminate].
      destruct (serialize (ledger_rows l)) as [wst c].
      destruct flt; simpl in H; try reflexivity; try discriminate.
      destruct wst as [[]|e]; discriminate. }
    destruct (save_ok_inv l m H) as [Hn Hok]. auto.
  - intros r rs Hn Hrows Hbad. apply (save_bad_row l m r Hn).
    + rewrite Hrows. left.
    + apply not_true_iff_false. intros Hw. apply Hbad, writable_spec, Hw.
Qed.

(** X3. A successful [save] leaves the ledger file holding exactly the
    header and the rows as [DictWriter] writes them, removes the temporary
    file (it was renamed), and touches no other file. *)
Theorem save_success_effect (l : ledger) (flt : fault) (m : fs) (tmp : path)
    (Hok : (save l flt m).1 = Ok tt)
    (Htmp : with_suffix (ledger_path l) ".tmp" = Ok tmp) :
  (save l flt m).2 (ledger_path l) = Some (FText (serialize (ledger_rows l)).2) /\
  (tmp <> ledger_path l -> (save l flt m).2 tmp = None) /\
  (forall q, q <> tmp -> q <> ledger_path l -> (save l flt m).2 q = m q).
Proof.
  unfold save in *. rewrite Htmp in Hok |- *.
  destruct (serialize (ledger_rows l)) as [wst content].
  destruct flt as [| |k|]; try discriminate; destruct wst as [[]|e]; try discriminate.
  cbn [snd]. split; [apply fs_upd_same|split].
  - intros Hne. rewrite fs_upd_other by exact Hne. apply fs_upd_same.
  - intros q H1 H2. rewrite !fs_upd_other by assumption. reflexivity.
Qed.

Lemma save_success_effect_witness :
  exists tmp, with_suffix ex_path ".tmp" = Ok tmp /\
  (save ex_ledger NoFault empty_fs).2 ex_path =
    Some (FText (serialize (ledger_rows ex_ledger)).2) /\
  (tmp <> ex_path -> (save ex_ledger NoFault empty_fs).2 tmp = None) /\
  (forall q, q <> tmp -> q <> ex_path ->
     (save ex_ledger NoFault empty_fs).2 q = empty_fs q).
Proof.
  exists (mkPath ["data"] "ledger.tmp"). split; [reflexivity|].
  apply (save_success_effect ex_ledger NoFault empty_fs); reflexivity.
Defined.

(** X4. A ledger file whose header names a column that is not one of the
    ledger's columns, with at least one non-blank data row, loads, but the
    ledger can then never be saved: [save] raises [ValueError], also after
    any further entries are added (the loaded rows stay in the ledger). *)
Theorem foreign_column_blocks_save (p : path) (m m' : fs) (t : text)
    (hdr : list text) (body : list (list text)) (k : string) (l l' : ledger)
    (Hinit : init p true m = Ok l)
    (Hfile : m p = Some (FText t))
    (Hcsv : CsvRead.read_csv t = Ok (hdr :: body))
    (Hk : k ∈ map str hdr) (Hkf : k ∉ FIELDNAMES)
    (Hbody : Exists (fun rec => rec <> []) body)
    (Hname : txt (pname p) <> [])
    (Hpath : ledger_path l' = p)
    (Hsub : ledger_rows l ⊆ ledger_rows l') :
  (save l' NoFault m').1 = Err ValueError.
Proof.
  unfold init, load in Hinit. simpl in Hinit. rewrite Hfile, Hcsv in Hinit. simpl in Hinit.
  injection Hinit as <-. cbn [ledger_rows] in Hsub.
  apply Exists_exists in Hbody as (rec & Hrec & Hne).
  assert (Hr : mk_row (map str hdr) rec ∈ dict_reader (hdr :: body)).
  { unfold dict_reader. apply list_elem_of_In, in_map, list_elem_of_In.
    apply list_elem_of_filter. split; [|exact Hrec]. by rewrite bool_decide_false. }
  apply (save_bad_row l' m' (mk_row (map str hdr) rec)).
  - by rewrite Hpath.
  - by apply Hsub.
  - apply writable_false. right. apply Exists_exists. exists k. split; [|exact Hkf].
    by apply mk_row_keys.
Qed.

Lemma foreign_column_blocks_save_witness :
  exists l, init ex_path true ex_foreign_fs = Ok l /\
  (save (add_entry l ex_paper "model-x" PNone PNone PNone "2024-01-02") NoFault ex_foreign_fs).1
    = Err ValueError.
Proof.
  match goal with |- exists l, ?c = Ok l /\ _ => destruct c as [l|e] eqn:Hc end;
    [|vm_compute in Hc; discriminate].
  exists l. split; [reflexivity|].
  apply (foreign_column_blocks_save ex_path ex_foreign_fs ex_foreign_fs (txt "canonical_id,title,notes
x,y,z
") (map txt ["canonical_id"; "title"; "notes"]%string) [map txt ["x"; "y"; "z"]%string] "notes" l).
  - exact Hc.
  - reflexivity.
  - vm_compute. reflexivity.
  - vm_compute. right. right. left.
  - vm_compute. intros H. repeat (apply elem_of_cons in H as [H|H]; [discriminate|]).
    by apply elem_of_nil in H.
  - constructor. discriminate.
  - discriminate.
  - pose proof Hc as Hc'. vm_compute in Hc'. injection Hc' as <-. reflexivity.
  - intros x Hx. cbn [add_entry ledger_rows]. apply elem_of_app. by left.
Defined.

(** X5. After [add_entry], [is_processed(Y)] holds exactly when it held
    before or [Y] is the paper dict's [canonical_id]; nothing else changes.
    This holds for any string, the empty one included: in memory an empty
    id counts as processed, though a reloaded ledger skips empty ids. *)
Theorem add_entry_processed (l : ledger) (pd : list (string * pyval)) (mn : string)
    (ar ps lp : pyval) (now Y : string) :
  is_processed (add_entry l pd mn ar ps lp now) Y =
  is_processed l Y || bool_decide (PStr Y = dict_get "canonical_id" pd PNone).
Proof.
  unfold is_processed, add_entry. cbn [processed_ids]. unfold row_get. cbn [cells dict_get].
  rewrite <- bool_decide_or. apply bool_decide_ext.
  rewrite elem_of_app, list_elem_of_singleton. reflexivity.
Qed.

(** X6. [add_entry] always appends one row, even for an id already
    processed (it does not deduplicate): the row count, the count of rows
    with that [canonical_id] and [get_new_papers_count] each grow by one. *)
Theorem add_entry_appends (l : ledger) (pd : list (string * pyval)) (mn : string)
    (ar ps lp : pyval) (now : string) :
  let l' := add_entry l pd mn ar ps lp now in
  let same := fun r => bool_decide (row_get "canonical_id" r PNone = dict_get "canonical_id" pd PNone) in
  length (ledger_rows l') = S (length (ledger_rows l)) /\
  length (filter same (ledger_rows l')) = S (length (filter same (ledger_rows l))) /\
  get_new_papers_count l' = S (get_new_papers_count l) /\
  ledger_path l' = ledger_path l.
Proof.
  cbv zeta. unfold get_new_papers_count, add_entry. cbn [ledger_rows ledger_path].
  rewrite !filter_app, !length_app.
  rewrite (filter_cons_True _ (entry_of _ _ _ _ _ _)), (filter_cons_True _ (entry_of _ _ _ _ _ _)).
  - simpl. repeat split; lia.
  - by apply bool_decide_pack.
  - by apply bool_decide_pack.
Qed.

(** X7. On a ledger [PaperLedger(path)] constructs, [is_processed(X)]
    holds exactly when [X] is non-empty and some row of the file has
    [canonical_id] [X]. *)
Theorem init_is_processed (p : path) (m : fs) (l : ledger) (X : string)
    (Hinit : init p true m = Ok l) :
  is_processed l X = true <->
  X <> ""%string /\ exists r, r ∈ ledger_rows l /\ row_get "canonical_id" r PNone = PStr X.
Proof.
  destruct (init_shape p m l Hinit) as [rows ->]. unfold is_processed. cbn [processed_ids ledger_rows].
  rewrite bool_decide_eq_true, load_rows_spec. simpl.
  split; intros [H1 H2]; split; try exact H2.
  - intros ->. rewrite bool_decide_true in H1 by reflexivity. discriminate.
  - by rewrite bool_decide_false.
Qed.

Lemma init_is_processed_witness :
  exists l, init ex_path true ex_foreign_fs = Ok l /\
  (is_processed l "x" = true <->
   "x"%string <> ""%string /\ exists r, r ∈ ledger_rows l /\ row_get "canonical_id" r PNone = PStr "x").
Proof.
  match goal with |- exists l, ?c = Ok l /\ _ => destruct c as [l|e] eqn:Hc end;
    [|vm_compute in Hc; discriminate].
  exists l. split; [reflexivity|]. apply (init_is_processed ex_path ex_foreign_fs l "x" Hc).
Defined.

(* ------------------------------------------------------------------ *)
(** ** normalise_title: the shape of its output *)

Section NormaliseShape.
Import Normalise.
Local Open Scope N_scope.

Variable nfd : list N -> list N.
Variable is_Mn : N -> bool.
Variable lower : list N -> list N.
Variable is_space : N -> bool.
Hypothesis HU : unicode_laws nfd is_Mn lower is_space.

Lemma no_adj_cons (a : N) (t : list N) :
  no_adj is_space (a :: t) = true <->
  no_adj is_space t = true /\ (forall b, head t = Some b -> is_space a && is_space b = false).
Proof.
  destruct t as [|b t]; simpl; [split; [done|done]|].
  rewrite andb_true_iff, negb_true_iff. split.
  - intros [H1 H2]. split; [exact H2|]. intros b' Hb. injection Hb as <-. exact H1.
  - intros [H1 H2]. split; [apply H2; reflexivity|exact H1].
Qed.

Lemma collapse_go_shape (b : bool) (x : list N) :
  no_adj is_space (collapse_go is_space b x) = true /\
  (b = true -> forall c, head (collapse_go is_space b x) = Some c -> is_space c = false).
Proof.
  revert b. induction x as [|c x IH]; intros b; [split; [reflexivity|discriminate]|].
  simpl. destruct (is_space c) eqn:Hc.
  - destruct b.
    + exact (IH true).
    + destruct (IH true) as [H1 H2]. split; [|discriminate].
      apply no_adj_cons. split; [exact H1|]. intros d Hd.
      rewrite (H2 eq_refl d Hd). apply andb_false_r.
  - destruct (IH false) as [H1 _]. split.
    + apply no_adj_cons. split; [exact H1|]. intros d _. by rewrite Hc.
    + intros _ d Hd. injection Hd as <-. exact Hc.
Qed.

Lemma no_adj_app (a b : list N) : no_adj is_space (a ++ b) = true -> no_adj is_space a = true /\ no_adj is_space b = true.
Proof.
  induction a as [|x a IH]; intros H; [split; [reflexivity|exact H]|].
  simpl app in H. apply no_adj_cons in H as [H1 H2]. destruct (IH H1) as [Ha Hb].
  split; [|exact Hb]. apply no_adj_cons. split; [exact Ha|].
  intros d Hd. apply H2. destruct a; [discriminate|exact Hd].
Qed.

Lemma lstrip_suffix (l : list N) : exists p, l = p ++ lstrip is_space l.
Proof.
  induction l as [|c l IH]; [by exists []|]. simpl. destruct (is_space c).
  - destruct IH as [p Hp]. exists (c :: p). simpl. by rewrite <- Hp.
  - by exists [].
Qed.

Lemma rstrip_prefix (l : list N) : exists s, l = rstrip is_space l ++ s.
Proof.
  induction l as [|c l IH]; [by exists []|]. simpl.
  destruct IH as [s Hs]. destruct (rstrip is_space l) as [|d r] eqn:E.
  - destruct (is_space c); [exists (c :: l); reflexivity|exists l; reflexivity].
  - exists s. rewrite Hs at 1. reflexivity.
Qed.

Lemma lstrip_head (l : list N) (c : N) : head (lstrip is_space l) = Some c -> is_space c = false.
Proof.
  induction l as [|d l IH]; [discriminate|]. simpl. destruct (is_space d) eqn:E; [exact IH|].
  intros H. injection H as <-. exact E.
Qed.

Lemma rstrip_last (l : list N) (c : N) : last (rstrip is_space l) = Some c -> is_space c = false.
Proof.
  induction l as [|d l IH]; [discriminate|]. simpl.
  destruct (rstrip is_space l) as [|e r] eqn:E.
  - destruct (is_space d) eqn:Hd; [discriminate|]. intros H. injection H as <-. exact Hd.
  - intros H. apply IH. rewrite last_cons in H.
    destruct (last (e :: r)) eqn:Hl; [exact H|]. apply last_None in Hl. discriminate.
Qed.

Lemma rstrip_head (l : list N) (c : N) :
  head (rstrip is_space l) = Some c -> head l = Some c.
Proof.
  destruct (rstrip_prefix l) as [s Hs]. intros H. rewrite Hs.
  destruct (rstrip is_space l); [discriminate|exact H].
Qed.

Lemma no_adj_split (a b : list N) (c d : N) :
  no_adj is_space (a ++ c :: d :: b) = true -> is_space c && is_space d = false.
Proof.
  intros H. apply no_adj_app in H as [_ H]. apply no_adj_cons in H as [_ H]. by apply H.
Qed.

Lemma normalise_shape (t : list N) :
  let n := normalise_title nfd is_Mn lower is_space t in
  Forall (fun c => is_az c || is_09 c || (c =? 32) = true) n /\
  head n <> Some 32 /\ last n <> Some 32 /\ (forall a b, n <> a ++ 32 :: 32 :: b).
Proof.
  cbv zeta. rewrite (normalise_kp _ _ _ _ HU).
  pose proof (sp32 _ _ _ _ HU) as H32.
  unfold strip, collapse. set (y := collapse_go is_space false (kept nfd is_Mn lower is_space t)).
  assert (Hy : no_adj is_space y = true) by apply (collapse_go_shape false).
  assert (Hz : no_adj is_space (rstrip is_space (lstrip is_space y)) = true).
  { destruct (lstrip_suffix y) as [p Hp]. rewrite Hp in Hy. apply no_adj_app in Hy as [_ Hy].
    destruct (rstrip_prefix (lstrip is_space y)) as [s Hs]. rewrite Hs in Hy.
    by apply no_adj_app in Hy as [Hy _]. }
  split; [apply out_chars|split; [|split]].
  - intros Hh. apply rstrip_head, lstrip_head in Hh. congruence.
  - intros Hl. apply rstrip_last in Hl. congruence.
  - intros a b Hab. rewrite Hab in Hz. apply no_adj_split in Hz. rewrite H32 in Hz. discriminate.
Qed.

End NormaliseShape.

(** X8. The output of [normalise_title] is made of lowercase ASCII
    letters, ASCII digits and single spaces: it neither starts nor ends
    with a space and never holds two spaces in a row. *)
Theorem normalise_title_charset (nfd : list N -> list N) (is_Mn : N -> bool)
    (lower : list N -> list N) (is_space : N -> bool)
    (HU : Normalise.unicode_laws nfd is_Mn lower is_space) (t : list N) :
  let n := Normalise.normalise_title nfd is_Mn lower is_space t in
  Forall (fun c => Normalise.is_az c || Normalise.is_09 c || (c =? 32)%N = true) n /\
  head n <> Some 32%N /\ last n <> Some 32%N /\ (forall a b, n <> a ++ 32%N :: 32%N :: b).
Proof. exact (normalise_shape _ _ _ _ HU t). Qed.

Lemma normalise_title_charset_witness :
  let n := Normalise.norm_db (Normalise.cps "  Caf" ++ [233%N] ++ Normalise.cps ":   3D  Splats! ") in
  Forall (fun c => Normalise.is_az c || Normalise.is_09 c || (c =? 32)%N = true) n /\
  head n <> Some 32%N /\ last n <> Some 32%N /\ (forall a b, n <> a ++ 32%N :: 32%N :: b).
Proof. exact (normalise_title_charset _ _ _ _ db_unicode_laws _). Defined.

(* ------------------------------------------------------------------ *)
(** ** compute_stable_hash, compute_title_hash, the CVF canonical id *)

Section HashFacts.
Import Hash.

Lemma utf8_char_none (c : N) : utf8_char c = None <-> is_surrogate c = true.
Proof.
  unfold utf8_char, is_surrogate.
  destruct (Z.ltb_spec (Z.of_N c) 128); [split; [discriminate|]|].
  { rewrite andb_true_iff, !N.leb_le. lia. }
  destruct (Z.ltb_spec (Z.of_N c) 2048); [split; [discriminate|]|].
  { rewrite andb_true_iff, !N.leb_le. lia. }
  destruct (Z.leb_spec 55296 (Z.of_N c)), (Z.leb_spec (Z.of_N c) 57343); simpl;
    rewrite ?andb_true_iff, ?N.leb_le.
  - split; [lia|reflexivity].
  - destruct (Z.ltb_spec (Z.of_N c) 65536); split; (discriminate || lia).
  - destruct (Z.ltb_spec (Z.of_N c) 65536); split; (discriminate || lia).
  - destruct (Z.ltb_spec (Z.of_N c) 65536); split; (discriminate || lia).
Qed.

Lemma utf8_encode_none (s : list N) :
  utf8_encode s = None <-> Exists (fun c => is_surrogate c = true) s.
Proof.
  induction s as [|c s IH]; simpl.
  - split; [discriminate|intros H; inversion H].
  - rewrite Exists_cons, <- utf8_char_none, <- IH.
    destruct (utf8_char c), (utf8_encode s); split; try discriminate; try tauto.
    intros [H|H]; discriminate.
Qed.

Lemma hexdigest_shape (d : list Z) :
  length (hexdigest d) = 2 * length d /\
  Forall (fun a => a ∈ txt "0123456789abcdef") (hexdigest d).
Proof.
  assert (Hd : forall n, hex_digit n ∈ txt "0123456789abcdef").
  { intros n. unfold hex_digit. destruct (nth_in_or_default (Z.to_nat n) (txt "0123456789abcdef") "0"%char) as [H|H].
    - by apply list_elem_of_In.
    - rewrite H. left. }
  induction d as [|b d [IH1 IH2]]; [split; [reflexivity|constructor]|].
  change (hexdigest (b :: d)) with (hex_digit (b / 16) :: hex_digit (b mod 16) :: hexdigest d).
  cbn [length]. split; [lia|]. constructor; [apply Hd|]. constructor; [apply Hd|exact IH2].
Qed.

Lemma compress_length (h block : list Z) : length h = 8 -> length (compress h block) = 8.
Proof. intros Hh. unfold compress. rewrite length_zip_with, Hh. reflexivity. Qed.

Lemma flat_be_bytes_length (w : list Z) : length (flat_map (be_bytes 4) w) = 4 * length w.
Proof.
  induction w as [|x w IH]; [reflexivity|]. cbn [flat_map]. rewrite length_app, IH.
  unfold be_bytes. rewrite length_map, length_seq. simpl. lia.
Qed.

Lemma sha256_length (bs : list Z) : length (sha256 bs) = 32.
Proof.
  unfold sha256.
  assert (H : forall bl h, length h = 8 -> length (fold_left compress bl h) = 8).
  { induction bl as [|b bl IH]; intros h Hh; [exact Hh|]. simpl. by apply IH, compress_length. }
  rewrite flat_be_bytes_length, H; reflexivity.
Qed.

Lemma stable_hash_some (t : list N) (h : text) :
  compute_stable_hash t = Some h ->
  length h = 16 /\ Forall (fun a => a ∈ txt "0123456789abcdef") h.
Proof.
  unfold compute_stable_hash. destruct (utf8_encode t) as [bs|]; [|discriminate].
  intros E. injection E as <-. destruct (hexdigest_shape (sha256 bs)) as [H1 H2].
  rewrite sha256_length in H1. split.
  - rewrite length_take, H1. reflexivity.
  - by apply Forall_take.
Qed.

Lemma stable_hash_none (t : list N) :
  compute_stable_hash t = None <-> Exists (fun c => is_surrogate c = true) t.
Proof.
  rewrite <- utf8_encode_none. unfold compute_stable_hash.
  destruct (utf8_encode t); split; done.
Qed.

Lemma ascii_not_surrogate (c : N) : (c < 55296)%N -> is_surrogate c = false.
Proof. intros Hc. unfold is_surrogate. destruct (N.leb_spec 55296 c); [lia|reflexivity]. Qed.

Lemma out_char_not_surrogate (c : N) : out_char c = true -> is_surrogate c = false.
Proof. intros H. apply ascii_not_surrogate. pose proof (proj1 (ascii_lower_out c H)). lia. Qed.

Lemma cps_not_surrogate (s : string) : Forall (fun c => is_surrogate c = false) (Normalise.cps s).
Proof.
  apply Forall_forall. intros c Hc. unfold Normalise.cps in Hc.
  apply list_elem_of_In, in_map_iff in Hc as (a & <- & _).
  apply ascii_not_surrogate. pose proof (N_ascii_bounded a). lia.
Qed.

Lemma normalise_out_chars (nfd : list N -> list N) (is_Mn : N -> bool)
    (lower : list N -> list N) (is_space : N -> bool) (t : list N) :
  Forall (fun c => out_char c = true) (Normalise.normalise_title nfd is_Mn lower is_space t).
Proof. destruct t as [|c t]; [constructor|apply (out_chars nfd is_Mn lower is_space (c :: t))]. Qed.

Lemma no_surrogate_exists (l : list N) :
  Forall (fun c => is_surrogate c = false) l -> ~ Exists (fun c => is_surrogate c = true) l.
Proof. intros H Hex. apply Exists_exists in Hex as (c & Hc & Hs). rewrite Forall_forall in H. rewrite H in Hs; done. Qed.

End HashFacts.

(** X9. [compute_stable_hash] raises ([UnicodeEncodeError]) exactly when
    the text holds a surrogate code point; otherwise it returns 16
    lowercase hexadecimal digits. *)
Theorem compute_stable_hash_spec (t : list N) :
  (Hash.compute_stable_hash t = None <-> Exists (fun c => Hash.is_surrogate c = true) t) /\
  (forall h, Hash.compute_stable_hash t = Some h ->
     length h = 16 /\ Forall (fun a => a ∈ txt "0123456789abcdef") h).
Proof. split; [apply stable_hash_none|apply stable_hash_some]. Qed.

(** X10. [compute_title_hash] never raises, whatever the title: it always
    returns 16 lowercase hexadecimal digits. *)
Theorem compute_title_hash_total (nfd : list N -> list N) (is_Mn : N -> bool)
    (lower : list N -> list N) (is_space : N -> bool) (t : list N) :
  exists h, Hash.compute_title_hash nfd is_Mn lower is_space t = Some h /\
            length h = 16 /\ Forall (fun a => a ∈ txt "0123456789abcdef") h.
Proof.
  unfold Hash.compute_title_hash.
  destruct (Hash.compute_stable_hash _) as [h|] eqn:E.
  - exists h. split; [reflexivity|]. by apply stable_hash_some in E.
  - exfalso. apply stable_hash_none in E. revert E. apply no_surrogate_exists.
    eapply Forall_impl; [apply normalise_out_chars|]. apply out_char_not_surrogate.
Qed.

Lemma ok_none_iff {A} (o : option A) : Ok o = Ok None <-> o = None.
Proof. split; [intros H; by injection H|intros ->; reflexivity]. Qed.

(** X11. A CVF paper's [canonical_id] raises [ValueError] exactly when the
    year has more than 4300 digits; otherwise it raises
    [UnicodeEncodeError] exactly when the venue holds a surrogate code
    point. It does not change when the title changes only by ASCII case, by
    combining marks, by ASCII punctuation, by the length of a run of
    whitespace, or by leading and trailing whitespace (the whitespace
    clauses for tables with the property [space_kept]). *)
Theorem cvf_canonical_id_spec (nfd : list N -> list N) (is_Mn : N -> bool)
    (lower : list N -> list N) (is_space : N -> bool)
    (HU : Normalise.unicode_laws nfd is_Mn lower is_space) (year : Z) (venue : list N) :
  let cid := fun t => Hash.cvf_canonical_id nfd is_Mn lower is_space t year venue in
  (forall t, cid t = Err ValueError <-> int_str_ok year = false) /\
  (forall t, cid t = Ok None <->
     int_str_ok year = true /\ Exists (fun c => Hash.is_surrogate c = true) venue) /\
  (forall t1 t2, Forall2 (fun x y => Normalise.ascii_lower x = Normalise.ascii_lower y) t1 t2 ->
     cid t1 = cid t2) /\
  (forall t1 t2, List.filter (fun c => negb (is_Mn c)) (nfd t1) =
                 List.filter (fun c => negb (is_Mn c)) (nfd t2) -> cid t1 = cid t2) /\
  (forall a b p, Normalise.ascii_punct p = true -> cid (a ++ p :: b) = cid (a ++ b)) /\
  (Normalise.space_kept nfd is_Mn lower is_space ->
   forall a b w1 w2, w1 <> [] -> w2 <> [] ->
     forallb is_space w1 = true -> forallb is_space w2 = true ->
     cid (a ++ w1 ++ b) = cid (a ++ w2 ++ b)) /\
  (Normalise.space_kept nfd is_Mn lower is_space ->
   forall t w1 w2, forallb is_space w1 = true ->
     forallb is_space w2 = true -> cid (w1 ++ t ++ w2) = cid t).
Proof.
  intros cid. unfold cid, Hash.cvf_canonical_id.
  split; [|split; [|split; [|split; [|split; [|split]]]]].
  - intros t. destruct (int_str_ok year); split; congruence.
  - intros t. destruct (int_str_ok year); [|split; [discriminate|intros [H _]; discriminate]].
    rewrite ok_none_iff, stable_hash_none, !Exists_app. split; [|tauto].
    intros H. split; [reflexivity|].
    destruct H as [H|[H|[H|[H|H]]]]; try exact H; exfalso; revert H; apply no_surrogate_exists;
      try apply cps_not_surrogate.
    eapply Forall_impl; [apply normalise_out_chars|]. apply out_char_not_surrogate.
  - intros t1 t2 H. destruct (int_str_ok year); [|reflexivity].
    by rewrite (norm_case _ _ _ _ HU t1 t2 H).
  - intros t1 t2 H. destruct (int_str_ok year); [|reflexivity].
    by rewrite (norm_marks _ _ _ _ HU t1 t2 H).
  - intros a b p H. destruct (int_str_ok year); [|reflexivity].
    by rewrite (norm_punct _ _ _ _ HU a b p H).
  - intros HS a b w1 w2 H1 H2 H3 H4. destruct (int_str_ok year); [|reflexivity].
    by rewrite (norm_ws_space _ _ _ _ HU a b w1 w2 HS H1 H2 H3 H4).
  - intros HS t w1 w2 H1 H2. destruct (int_str_ok year); [|reflexivity].
    by rewrite (norm_ends_space _ _ _ _ HU t w1 w2 HS H1 H2).
Qed.

Lemma cvf_canonical_id_spec_witness :
  let cid := fun t => Hash.cvf_canonical_id Normalise.nfd_db Normalise.is_Mn_db Normalise.lower_db
                        Normalise.is_space_db t 2024 (Normalise.cps "CVPR") in
  (forall t, cid t = Err ValueError <-> int_str_ok 2024 = false) /\
  (forall t, cid t = Ok None <->
     int_str_ok 2024 = true /\ Exists (fun c => Hash.is_surrogate c = true) (Normalise.cps "CVPR")) /\
  (forall t1 t2, Forall2 (fun x y => Normalise.ascii_lower x = Normalise.ascii_lower y) t1 t2 ->
     cid t1 = cid t2) /\
  (forall t1 t2, List.filter (fun c => negb (Normalise.is_Mn_db c)) (Normalise.nfd_db t1) =
                 List.filter (fun c => negb (Normalise.is_Mn_db c)) (Normalise.nfd_db t2) ->
                 cid t1 = cid t2) /\
  (forall a b p, Normalise.ascii_punct p = true -> cid (a ++ p :: b) = cid (a ++ b)) /\
  (forall a b w1 w2, w1 <> [] -> w2 <> [] ->
     forallb Normalise.is_space_db w1 = true -> forallb Normalise.is_space_db w2 = true ->
     cid (a ++ w1 ++ b) = cid (a ++ w2 ++ b)) /\
  (forall t w1 w2, forallb Normalise.is_space_db w1 = true ->
     forallb Normalise.is_space_db w2 = true -> cid (w1 ++ t ++ w2) = cid t).
Proof.
  destruct (cvf_canonical_id_spec _ _ _ _ db_unicode_laws 2024 (Normalise.cps "CVPR"))
    as (H1 & H2 & H3 & H4 & H5 & H6 & H7).
  exact (conj H1 (conj H2 (conj H3 (conj H4 (conj H5
           (conj (H6 db_space_kept) (H7 db_space_kept))))))).
Defined.

(** The model agrees with CPython on a CVF title:
    [CVFPaper("Café: 3D  Splats!", [], "CVPR", 2024, url).canonical_id]. *)
Lemma cvf_canonical_id_example :
  Hash.cvf_canonical_id Normalise.nfd_db Normalise.is_Mn_db Normalise.lower_db Normalise.is_space_db
    (Normalise.cps "Caf" ++ [233%N] ++ Normalise.cps ": 3D  Splats!") 2024 (Normalise.cps "CVPR")
  = Ok (Some (txt "c4dd12cbd0f6efd3")).
Proof. vm_compute. reflexivity. Qed.

(* ------------------------------------------------------------------ *)
(** ** The reflection controller: what the critic's and reviser's JSON does *)

Section ReflectionFacts.
Import Json Reflection.

Lemma critic_node_dict (gen : node -> rstate -> text) (loads : text -> res jvalue)
    (s : rstate) (kvs : list (list N * jvalue)) :
  loads (extract (gen Critic s)).1 = Ok (JObj kvs) ->
  critic_node gen loads s =
    (let? _ := len_ok (jget k_revision_actions kvs (JArr [])) in
     Ok (set_critique s (extract (gen Critic s)).1 (jget k_revision_actions kvs (JArr []))
                       (jget k_overall_score kvs (JInt 5)))).
Proof.
  unfold critic_node. destruct (extract (gen Critic s)) as [js ct]. simpl. intros ->. reflexivity.
Qed.

Lemma jget_absent (k : list N) (kvs : list (list N * jvalue)) (d : jvalue) :
  Forall (fun kv => kv.1 <> k) kvs -> jget k kvs d = d.
Proof.
  intros H. unfold jget. destruct (List.find _ (rev kvs)) as [kv|] eqn:E; [|reflexivity].
  apply List.find_some in E as [Hin Hk]. apply bool_decide_eq_true in Hk.
  apply in_rev, list_elem_of_In in Hin. rewrite Forall_forall in H. by destruct (H kv Hin).
Qed.

End ReflectionFacts.

(** X12. When the controller revises and the reviser's answer parses to a
    dict, [reflect] returns that dict's ["abstract_rewrite"],
    ["problem_solved"] and ["linkedin_post"] values (the last one for a
    repeated key) as they are, which need not be strings, and keeps the
    draft for a missing key. *)
Theorem reflect_reviser_payload (gen : Reflection.node -> Reflection.rstate -> text)
    (loads : text -> res Json.jvalue) (mi : Z) (ti au ve : list N) (yr : Z)
    (ab ar ps lp : list N) (s1 : Reflection.rstate) (kvs : list (list N * Json.jvalue))
    (Hc : Reflection.critic_node gen loads (Reflection.init_state mi ti au ve yr ab ar ps lp) = Ok s1)
    (Hr : Reflection.should_revise s1 = Ok Reflection.Revise)
    (Hj : loads (Reflection.extract (gen Reflection.Reviser s1)).1 = Ok (Json.JObj kvs)) :
  Reflection.reflect gen loads mi ti au ve yr ab ar ps lp =
    Ok (Json.jget Reflection.k_abstract_rewrite kvs (Json.JStr ar),
        Json.jget Reflection.k_problem_solved kvs (Json.JStr ps),
        Json.jget Reflection.k_linkedin_post kvs (Json.JStr lp)).
Proof.
  destruct (critic_node_frame _ _ _ _ Hc) as (Har & Hps & Hlp & _ & _ & Hit).
  unfold Reflection.reflect. rewrite reflect_run_unfold, Hc. simpl. rewrite Hr. simpl.
  unfold Reflection.reviser_node. rewrite Hit. simpl. rewrite Hj. simpl.
  cbn in Har, Hps, Hlp. rewrite Har, Hps, Hlp. reflexivity.
Qed.

Lemma reflect_reviser_payload_witness :
  exists s1,
    Reflection.critic_node
      (Reflection.gen_of (Reflection.jtxt "{'overall_score': 6, 'revision_actions': ['shorten']}")
                         (Reflection.jtxt "{'abstract_rewrite': 7, 'linkedin_post': null, 'abstract_rewrite': 'x'}"))
      Reflection.ex_loads (Reflection.init_state 1 [] [] [] 2024 [] (Normalise.cps "ar") (Normalise.cps "ps") (Normalise.cps "lp")) = Ok s1 /\
    Reflection.reflect
      (Reflection.gen_of (Reflection.jtxt "{'overall_score': 6, 'revision_actions': ['shorten']}")
                         (Reflection.jtxt "{'abstract_rewrite': 7, 'linkedin_post': null, 'abstract_rewrite': 'x'}"))
      Reflection.ex_loads 1 [] [] [] 2024 [] (Normalise.cps "ar") (Normalise.cps "ps") (Normalise.cps "lp")
    = Ok (Json.JStr (Normalise.cps "x"), Json.JStr (Normalise.cps "ps"), Json.JNull).
Proof.
  match goal with |- exists s1, ?c = Ok s1 /\ _ => destruct c as [s1|e] eqn:Hc end;
    [|vm_compute in Hc; discriminate].
  exists s1. split; [reflexivity|].
  pose proof Hc as Hc'. vm_compute in Hc'. injection Hc' as Hs1.
  rewrite (reflect_reviser_payload _ _ _ _ _ _ _ _ _ _ _ s1
             [(Normalise.cps "abstract_rewrite", Json.JInt 7); (Normalise.cps "linkedin_post", Json.JNull);
              (Normalise.cps "abstract_rewrite", Json.JStr (Normalise.cps "x"))] Hc);
    [vm_compute; reflexivity| |]; rewrite <- Hs1; vm_compute; reflexivity.
Defined.

(** X13. When the critic's answer parses to a dict whose
    ["revision_actions"] is not a string, list or dict (for instance
    [null] or a number), [len(revision_actions)] in the log line raises
    [TypeError], which the code does not catch: [reflect] raises, whatever
    the score. *)
Theorem reflect_bad_actions_raise (gen : Reflection.node -> Reflection.rstate -> text)
    (loads : text -> res Json.jvalue) (mi : Z) (ti au ve : list N) (yr : Z)
    (ab ar ps lp : list N) (kvs : list (list N * Json.jvalue))
    (Hj : loads (Reflection.extract (gen Reflection.Critic
                   (Reflection.init_state mi ti au ve yr ab ar ps lp))).1 = Ok (Json.JObj kvs))
    (Ha : Reflection.len_ok (Json.jget Reflection.k_revision_actions kvs (Json.JArr [])) = Err TypeError) :
  Reflection.reflect gen loads mi ti au ve yr ab ar ps lp = Err TypeError.
Proof.
  unfold Reflection.reflect. rewrite reflect_run_unfold, (critic_node_dict _ _ _ _ Hj), Ha.
  reflexivity.
Qed.

Lemma reflect_bad_actions_raise_witness :
  Reflection.reflect
    (Reflection.gen_of (Reflection.jtxt "{'overall_score': 9, 'revision_actions': null}") [])
    Reflection.ex_loads 1 [] [] [] 2024 [] (Normalise.cps "ar") (Normalise.cps "ps") (Normalise.cps "lp")
  = Err TypeError.
Proof.
  apply (reflect_bad_actions_raise _ _ _ _ _ _ _ _ _ _ _
           [(Normalise.cps "overall_score", Json.JInt 9); (Normalise.cps "revision_actions", Json.JNull)]);
    vm_compute; reflexivity.
Defined.

(** X14. When the critic's answer parses to a dict without
    ["overall_score"] (and with usable ["revision_actions"]), the score
    defaults to the integer 5: the controller revises exactly when
    [max_iterations] is positive, and otherwise [reflect] returns the
    drafts. *)
Theorem reflect_missing_score (gen : Reflection.node -> Reflection.rstate -> text)
    (loads : text -> res Json.jvalue) (mi : Z) (ti au ve : list N) (yr : Z)
    (ab ar ps lp : list N) (kvs : list (list N * Json.jvalue))
    (Hj : loads (Reflection.extract (gen Reflection.Critic
                   (Reflection.init_state mi ti au ve yr ab ar ps lp))).1 = Ok (Json.JObj kvs))
    (Hs : Forall (fun kv => kv.1 <> Reflection.k_overall_score) kvs)
    (Ha : Reflection.len_ok (Json.jget Reflection.k_revision_actions kvs (Json.JArr [])) = Ok tt) :
  let s0 := Reflection.init_state mi ti au ve yr ab ar ps lp in
  let s1 := Reflection.set_critique s0 (Reflection.extract (gen Reflection.Critic s0)).1
              (Json.jget Reflection.k_revision_actions kvs (Json.JArr [])) (Json.JInt 5) in
  Reflection.critic_node gen loads s0 = Ok s1 /\
  Reflection.should_revise s1 = Ok (if (0 <? mi)%Z then Reflection.Revise else Reflection.Accept) /\
  ((mi <= 0)%Z -> Reflection.reflect gen loads mi ti au ve yr ab ar ps lp =
                  Ok (Json.JStr ar, Json.JStr ps, Json.JStr lp)) /\
  ((0 < mi)%Z -> Reflection.reflect_run gen loads mi ti au ve yr ab ar ps lp =
                 (let? s2 := Reflection.reviser_node gen loads s1 in
                  Ok (s2, [Reflection.Critic; Reflection.Reviser]))).
Proof.
  intros s0 s1.
  assert (Hc : Reflection.critic_node gen loads s0 = Ok s1).
  { unfold s1. rewrite (critic_node_dict _ _ _ _ Hj), Ha, (jget_absent _ _ _ Hs). reflexivity. }
  assert (Hsr : Reflection.should_revise s1 =
                Ok (if (0 <? mi)%Z then Reflection.Revise else Reflection.Accept)).
  { unfold Reflection.should_revise. simpl.
    destruct (Z.ltb_spec 0 mi), (Z.leb_spec mi 0); reflexivity || lia. }
  split; [exact Hc|]. split; [exact Hsr|]. split.
  - intros Hm. assert (E : (0 <? mi)%Z = false) by (apply Z.ltb_ge; lia).
    rewrite E in Hsr. unfold Reflection.reflect. rewrite reflect_run_unfold. fold s0.
    clearbody s1. rewrite Hc. simpl. rewrite Hsr. simpl.
    destruct (critic_node_frame _ _ _ _ Hc) as (Har & Hps & Hlp & _).
    rewrite Har, Hps, Hlp. reflexivity.
  - intros Hm. assert (E : (0 <? mi)%Z = true) by (apply Z.ltb_lt; lia).
    rewrite E in Hsr. rewrite reflect_run_unfold. fold s0. clearbody s1. rewrite Hc. simpl.
    rewrite Hsr. reflexivity.
Qed.

Lemma reflect_missing_score_witness :
  Reflection.reflect
    (Reflection.gen_of (Reflection.jtxt "{'revision_actions': []}") [])
    Reflection.ex_loads 0 [] [] [] 2024 [] (Normalise.cps "ar") (Normalise.cps "ps") (Normalise.cps "lp")
  = Ok (Json.JStr (Normalise.cps "ar"), Json.JStr (Normalise.cps "ps"), Json.JStr (Normalise.cps "lp")).
Proof.
  apply (reflect_missing_score _ _ _ _ _ _ _ _ _ _ _ [(Normalise.cps "revision_actions", Json.JArr [])]);
    [vm_compute; reflexivity| |vm_compute; reflexivity|lia].
  repeat constructor. vm_compute. discriminate.
Defined.

(* ------------------------------------------------------------------ *)
(** ** [run]: which papers and posts reach the ledger *)

Section RunFacts.
Import Orchestrator.

Lemma entry_of_id (p : paper) mn ar ps lp nw :
  row_get "canonical_id" (entry_of p mn ar ps lp nw) PNone = paper_id p.
Proof. reflexivity. Qed.

Lemma exec_add_one (model_name : string) (outputs : paper -> pyval * pyval * pyval)
    (now : paper -> string) (flt : fault) (p : paper) (l : ledger) (m : fs) :
  exec_op model_name outputs now flt (l, m) (AddEntry p) =
  (mkLedger (ledger_path l) (processed_ids l ++ [paper_id p])
            (ledger_rows l ++ [entry_out model_name outputs now p]), m).
Proof.
  unfold exec_op, entry_out. destruct (outputs p) as [[ar pr] lp]. reflexivity.
Qed.

Lemma exec_adds (model_name : string) (outputs : paper -> pyval * pyval * pyval)
    (now : paper -> string) (flt : fault) (ps : list paper) : forall l m,
  exec_ops model_name outputs now flt (map AddEntry ps) (l, m) =
  (mkLedger (ledger_path l) (processed_ids l ++ map paper_id ps)
            (ledger_rows l ++ map (entry_out model_name outputs now) ps), m).
Proof.
  induction ps as [|p ps IH]; intros l m.
  - destruct l. unfold exec_ops. simpl. by rewrite !app_nil_r.
  - cbn [map]. unfold exec_ops in *. cbn [fold_left].
    rewrite exec_add_one, IH. simpl. rewrite <- !app_assoc. reflexivity.
Qed.

Lemma filter_new_elem (l : ledger) (xs : list paper) (p : paper) :
  p ∈ filter_new_papers l xs -> paper_id p ∉ processed_ids l.
Proof.
  unfold filter_new_papers. rewrite list_elem_of_In, filter_In.
  intros [_ H]. apply negb_true_iff, bool_decide_eq_false in H. exact H.
Qed.

Lemma loop_body_new (retrieve : nat -> Z -> list paper) (l : ledger) (tp : Z) (s s' : rloop) :
  (loop_body retrieve l tp s = Stop s' \/ loop_body retrieve l tp s = Continue s') ->
  new_papers s' = new_papers s \/ exists a b, new_papers s' = filter_new_papers l (retrieve a b).
Proof.
  unfold loop_body.
  destruct (retrieve (S (attempt s)) (batch_size s)) as [|x xs] eqn:Hr.
  { intros [H|H]; inversion H; subst; left; reflexivity. }
  rewrite <- Hr.
  destruct (_ <=? _)%Z; [|destruct (_ && _)];
    intros [H|H]; inversion H; subst; right; eauto.
Qed.

Lemma retrieval_loop_new (retrieve : nat -> Z -> list paper) (l : ledger) (tp : Z) :
  forall fuel s s', retrieval_loop retrieve l tp fuel s = Some s' ->
  new_papers s' = new_papers s \/ exists a b, new_papers s' = filter_new_papers l (retrieve a b).
Proof.
  induction fuel as [|f IH]; intros s s' H; [discriminate|]. simpl in H.
  destruct (_ <? tp)%Z; [|injection H as <-; left; reflexivity].
  destruct (loop_body retrieve l tp s) as [s1|s1] eqn:Hb.
  - injection H as <-. apply (loop_body_new retrieve l tp s). by left.
  - destruct (IH s1 s' H) as [E|E]; [|right; exact E].
    rewrite E. apply (loop_body_new retrieve l tp s). by right.
Qed.

Lemma retrieval_loop_nonpos (retrieve : nat -> Z -> list paper) (l : ledger) (tp : Z)
    (fuel : nat) (s s' : rloop) :
  (tp <= 0)%Z -> retrieval_loop retrieve l tp fuel s = Some s' -> s' = s.
Proof.
  intros Htp H. destruct fuel as [|f]; [discriminate|]. simpl in H.
  destruct (Z.ltb_spec (Z.of_nat (length (new_papers s))) tp); [lia|].
  by injection H as <-.
Qed.

Lemma py_slice_prefix {A} (n : Z) (xs : list A) : exists k, py_slice_to n xs = take k xs.
Proof. unfold py_slice_to. destruct (0 <=? n)%Z; eauto. Qed.

Lemma py_slice_length {A} (n : Z) (xs : list A) :
  (0 <= n)%Z -> length (py_slice_to n xs) <= Z.to_nat n.
Proof.
  intros Hn. unfold py_slice_to. destruct (Z.leb_spec 0 n); [|lia].
  rewrite length_take. lia.
Qed.

Lemma select_nonempty {A} (n : Z) (xs : list A) :
  match xs with [] => [] | x :: xs' => py_slice_to n (x :: xs') end = py_slice_to n xs.
Proof. destruct xs; [|reflexivity]. unfold py_slice_to. destruct (0 <=? n)%Z; by rewrite take_nil. Qed.

Lemma filter_new_take (l : ledger) (k : nat) (xs : list paper) :
  Forall (fun p => paper_id p ∉ processed_ids l) (take k (filter_new_papers l xs)).
Proof.
  apply Forall_take, Forall_forall. intros p Hp. exact (filter_new_elem l xs p Hp).
Qed.

Lemma forall_filter_true (P : paper -> Prop) (f : paper -> bool) (xs : list paper) :
  Forall P xs -> Forall (fun p => P p /\ f p = true) (List.filter f xs).
Proof.
  intros H. apply Forall_forall. intros p Hp. apply list_elem_of_In, filter_In in Hp.
  destruct Hp as [Hp Hf]. split; [|exact Hf].
  rewrite Forall_forall in H. apply H, list_elem_of_In, Hp.
Qed.

Lemma length_filter_le (f : paper -> bool) (xs : list paper) :
  length (List.filter f xs) <= length xs.
Proof.
  induction xs as [|x xs IH]; [simpl; lia|]. simpl. destruct (f x); simpl; lia.
Qed.

End RunFacts.

Section RunFacts2.
Import Orchestrator.

Lemma exec_ops_app (model_name : string) (outputs : paper -> pyval * pyval * pyval)
    (now : paper -> string) (flt : fault) (o1 o2 : list ledger_op) (st : ledger * fs) :
  exec_ops model_name outputs now flt (o1 ++ o2) st =
  exec_ops model_name outputs now flt o2 (exec_ops model_name outputs now flt o1 st).
Proof. unfold exec_ops. apply fold_left_app. Qed.

Lemma slice_new_papers (l : ledger) (n : Z) (xs : list paper) :
  Forall (fun p => paper_id p ∉ processed_ids l) (py_slice_to n (filter_new_papers l xs)).
Proof. destruct (py_slice_prefix n (filter_new_papers l xs)) as [k ->]. apply filter_new_take. Qed.

(** X15. [run] adds to the ledger only papers and posts whose canonical id
    the ledger did not hold when the run began (the Reddit posts also avoid
    the papers added in the same run), and only ones that reached
    [add_entry]; the rows are appended in that order, at most
    [target_papers] papers and [target_reddit] posts (none at all when the
    target is 0 or negative), the ledger path is unchanged, and the files
    end as one [save] of the final ledger leaves them. *)
Theorem run_adds_only_new (retrieve : nat -> Z -> list paper) (fuel : nat)
    (reaches_add : paper -> bool) (model_name : string)
    (outputs : paper -> pyval * pyval * pyval) (now : paper -> string) (flt : fault)
    (fmt2 : bool) (b0 : Z) (tp_arg tr_arg : option Z) (reddit_posts : list paper)
    (l l' : ledger) (m m' : fs)
    (Hrun : run retrieve fuel reaches_add model_name outputs now flt fmt2 b0 tp_arg tr_arg
              reddit_posts (l, m) = Some (l', m')) :
  exists ps qs : list paper,
    l' = mkLedger (ledger_path l) (processed_ids l ++ map paper_id (ps ++ qs))
           (ledger_rows l ++ map (entry_out model_name outputs now) (ps ++ qs)) /\
    m' = (save l' flt m).2 /\
    Forall (fun p => (paper_id p ∉ processed_ids l) /\ reaches_add p = true) ps /\
    Forall (fun q => (paper_id q ∉ processed_ids l ++ map paper_id ps) /\ reaches_add q = true) qs /\
    length ps <= Z.to_nat (target_papers_of fmt2 tp_arg) /\
    length qs <= Z.to_nat (target_reddit_of fmt2 tr_arg).
Proof.
  unfold run in Hrun. cbv zeta in Hrun. cbn [fst snd] in Hrun.
  set (tp := target_papers_of fmt2 tp_arg) in *.
  set (tr := target_reddit_of fmt2 tr_arg) in *.
  destruct (retrieval_loop retrieve l tp fuel (loop_start b0)) as [s|] eqn:Hl; [|discriminate].
  injection Hrun as Hrun. rewrite !select_nonempty in Hrun.
  set (papers := py_slice_to tp (new_papers s)) in *.
  set (ps := List.filter reaches_add papers).
  assert (Hp : Forall (fun p => paper_id p ∉ processed_ids l) papers).
  { destruct (retrieval_loop_new retrieve l tp fuel (loop_start b0) s Hl) as [E|[a [b E]]];
      unfold papers; rewrite E; [|apply slice_new_papers].
    unfold py_slice_to. simpl. destruct (0 <=? tp)%Z; rewrite ?take_nil; constructor. }
  rewrite flat_map_process, (exec_adds model_name outputs now flt) in Hrun. simpl in Hrun.
  fold ps in Hrun.
  set (L1 := mkLedger (ledger_path l) (processed_ids l ++ map paper_id ps)
                      (ledger_rows l ++ map (entry_out model_name outputs now) ps)) in Hrun.
  set (reddit := if (0 <? tr)%Z then py_slice_to tr (filter_new_papers L1 reddit_posts) else [])
    in Hrun.
  assert (Hr : if (0 <? tr)%Z then reddit = py_slice_to tr (filter_new_papers L1 reddit_posts)
               else reddit = []) by (unfold reddit; by destruct (0 <? tr)%Z).
  set (qs := List.filter reaches_add reddit).
  unfold run_ops in Hrun. rewrite !flat_map_process, !exec_ops_app, exec_adds in Hrun.
  fold ps in Hrun. rewrite exec_adds in Hrun. fold qs in Hrun. simpl in Hrun.
  exists ps, qs. injection Hrun as <- <-. rewrite !map_app, !app_assoc. split; [reflexivity|].
  split; [reflexivity|]. split; [|split; [|split]].
  - apply forall_filter_true, Hp.
  - apply forall_filter_true. destruct (0 <? tr)%Z; rewrite Hr; [apply (slice_new_papers L1)|constructor].
  - transitivity (length papers); [apply length_filter_le|].
    destruct (Z.leb_spec 0 tp) as [Htp|Htp]; [apply py_slice_length, Htp|].
    unfold papers. rewrite (retrieval_loop_nonpos retrieve l tp fuel (loop_start b0) s) by (auto; lia).
    unfold py_slice_to. simpl. destruct (0 <=? tp)%Z; rewrite ?take_nil; simpl; lia.
  - transitivity (length reddit); [apply length_filter_le|].
    destruct (Z.ltb_spec 0 tr); rewrite Hr; [apply py_slice_length; lia|simpl; lia].
Qed.

End RunFacts2.

Section RunWitnesses.
Import Orchestrator.

Lemma run_adds_only_new_witness :
  exists l' m',
    run ex_dup_retrieve 3 (fun _ => true) "model-x" (fun _ => (PStr "a", PStr "b", PStr "c"))
      (fun _ => "2025-01-01") NoFault true 10 None None [mk_paper 1; mk_paper 7]
      (ex_ledger, empty_fs) = Some (l', m') /\
    exists ps qs : list paper,
      l' = mkLedger (ledger_path ex_ledger) (processed_ids ex_ledger ++ map paper_id (ps ++ qs))
             (ledger_rows ex_ledger ++
              map (entry_out "model-x" (fun _ => (PStr "a", PStr "b", PStr "c")) (fun _ => "2025-01-01"))
                (ps ++ qs)) /\
      m' = (save l' NoFault empty_fs).2 /\
      Forall (fun p => (paper_id p ∉ processed_ids ex_ledger) /\ true = true) ps /\
      Forall (fun q => (paper_id q ∉ processed_ids ex_ledger ++ map paper_id ps) /\ true = true) qs /\
      length ps <= Z.to_nat (target_papers_of true None) /\
      length qs <= Z.to_nat (target_reddit_of true None).
Proof.
  destruct (run ex_dup_retrieve 3 (fun _ => true) "model-x" (fun _ => (PStr "a", PStr "b", PStr "c"))
      (fun _ => "2025-01-01") NoFault true 10 None None [mk_paper 1; mk_paper 7]
      (ex_ledger, empty_fs)) as [[l' m']|] eqn:Hc; [|vm_compute in Hc; discriminate].
  exists l', m'. split; [reflexivity|].
  exact (run_adds_only_new _ _ _ _ _ _ _ _ _ _ _ _ _ _ _ _ Hc).
Defined.

End RunWitnesses.
